(** * The durable outbox of the RFID reader

    A shallow embedding of the event store ([DatabaseManager] in
    [rfid_reader.py]), of the delivery client and drain pass
    ([RFIDReader.send_webhook], [RFIDReader.sync_pending_data]) and of the
    schema migration script ([migrate_db.py]), with the properties the
    specification states about them.

    Conventions of the embedding:
    - The [card_reads] table is a finite map from the primary key [id] to
      the remaining columns.
    - A [DATETIME] cell holds text of the fixed form [YYYY-MM-DD HH:MM:SS];
      SQLite compares such cells as text, which for this format is the
      chronological order.  A cell is modelled by the number of seconds it
      denotes, and [NULL] by [None].
    - SQLite's [datetime('now')] and [CURRENT_TIMESTAMP] read the UTC
      clock; Python's [datetime.now()] reads the host's local wall clock.
      Both readings are explicit arguments ([Clock]).
    - Storage failures (I/O errors, a full disk, rowid exhaustion) make the
      source raise; they are outside the model. *)

From Stdlib Require Import ZArith Lia.
From stdpp Require Import gmap strings list fin_maps sorting pretty.

Local Open Scope Z_scope.

(** ** Data model *)

Module Store.

(** One row of [card_reads], without its key.  Columns the source always
    fills (through a value or a non-null default) carry a value; the three
    columns declared without default are nullable. *)
Record Row := mkRow {
  device_id : string;
  card_id : string;
  card_value : string;
  timestamp : Z;
  sync_status : string;
  sync_attempts : Z;
  last_sync_attempt : option Z;
  next_retry : option Z;
  webhook_response : option string;
  created_at : Z
}.

(** The database file as [DatabaseManager] sees it: the table, and the
    counter SQLite keeps in [sqlite_sequence] for an [AUTOINCREMENT] key. *)
Record Database := mkDatabase {
  card_reads : gmap Z Row;
  sqlite_sequence : Z
}.

(** The two clocks the source reads. *)
Record Clock := mkClock {
  sql_now : Z;   (* datetime('now') / CURRENT_TIMESTAMP: UTC *)
  py_now : Z     (* datetime.now(), as printed by strftime: local time *)
}.

(** A host whose local time is [offset] seconds ahead of UTC. *)
Definition clock_at (offset utc : Z) : Clock :=
  {| sql_now := utc; py_now := utc + offset |}.

Definition empty_db : Database :=
  {| card_reads := ∅; sqlite_sequence := 0 |}.

(** The tuple [get_pending_syncs] selects:
    [id, device_id, card_id, card_value, timestamp, sync_attempts,
    last_sync_attempt]. *)
Record PendingSync := mkPendingSync {
  ps_id : Z;
  ps_device_id : string;
  ps_card_id : string;
  ps_card_value : string;
  ps_timestamp : Z;
  ps_attempts : Z;
  ps_last_attempt : option Z
}.

(** ** Retry scheduler

    [min(2 ** (attempts - 1), 1440)], the expression inside
    [update_sync_status].  The definition is that expression for
    [attempts >= 1].  For [attempts < 1] Python's [**] yields a fraction
    of a minute, where this definition gives 0; the program only passes
    [sync_attempts + 1] for a stored count, and it never stores a count
    below 0. *)
Definition backoff_minutes (attempts : Z) : Z :=
  Z.min (2 ^ (attempts - 1)) 1440.

(** ** Event store *)

(** Largest rowid in the table, 0 for an empty one. *)
Definition max_rowid (m : gmap Z Row) : Z :=
  map_fold (λ k _ acc, Z.max k acc) 0 m.

(** [DatabaseManager.insert_card_read].  The key is the [AUTOINCREMENT]
    one: one more than the largest rowid the table has ever held.  All
    other columns take their defaults; [CURRENT_TIMESTAMP] and
    [datetime('now')] are one reading within a statement. *)
Definition insert_card_read (clk : Clock) (dev cid cval : string)
    (db : Database) : Database * Z :=
  let row_id := Z.max (sqlite_sequence db) (max_rowid (card_reads db)) + 1 in
  let row := {| device_id := dev; card_id := cid; card_value := cval;
                timestamp := sql_now clk;
                sync_status := "pending";
                sync_attempts := 0;
                last_sync_attempt := None;
                next_retry := Some (sql_now clk);
                webhook_response := None;
                created_at := sql_now clk |} in
  ({| card_reads := <[row_id := row]> (card_reads db);
      sqlite_sequence := row_id |}, row_id).

(** The dates SQLite's date functions handle run from Julian day 0
    (noon of 24 November 4714 BC) to the last second of the year 9999;
    in seconds from 1970-01-01 00:00:00: *)
Definition julian_day_zero : Z := -210866760000.
Definition last_datetime : Z := 253402300799.

(** A ['NNN days'] modifier is accepted for fewer than 5373485 days, the
    length of that range. *)
Definition day_limit : Z := 5373485.

(** The windows for which [datetime('now', '-N days')] is a date. *)
Definition valid_window (now max_age_days : Z) : Prop :=
  0 ≤ max_age_days < day_limit
  ∧ julian_day_zero ≤ now - max_age_days * 86400 ≤ last_datetime.

#[global] Instance valid_window_dec now n : Decision (valid_window now n).
Proof. unfold valid_window. apply _. Defined.

(** [datetime('now', '-N days')].  The modifier is built by
    ['-{} days'.format(N)]: for a negative [N] it reads ['--n days'], which
    SQLite rejects, and the function yields [NULL].  It yields [NULL] as
    well when [N] is beyond the limit of the modifier or when the date
    [N] days back leaves the range of dates SQLite handles.  A date
    before the year 0 is printed with a leading minus sign; as text it
    sorts before every cell of the fixed form, as its value does. *)
Definition days_before (now max_age_days : Z) : option Z :=
  if decide (valid_window now max_age_days)
  then Some (now - max_age_days * 86400)
  else None.

(** The [WHERE] clause of [get_pending_syncs]; a comparison with [NULL]
    is not true. *)
Definition is_due (now : Z) (cutoff : option Z) (r : Row) : bool :=
  bool_decide (sync_status r = "pending")
  && match next_retry r with
     | None => true
     | Some t => bool_decide (t ≤ now)
     end
  && match cutoff with
     | None => false
     | Some c => bool_decide (c ≤ created_at r)
     end.

Definition created_le (a b : Z * Row) : Prop :=
  created_at a.2 ≤ created_at b.2.

#[global] Instance created_le_dec a b : Decision (created_le a b).
Proof. unfold created_le. apply _. Defined.

Definition to_pending (ir : Z * Row) : PendingSync :=
  {| ps_id := ir.1;
     ps_device_id := device_id ir.2;
     ps_card_id := card_id ir.2;
     ps_card_value := card_value ir.2;
     ps_timestamp := timestamp ir.2;
     ps_attempts := sync_attempts ir.2;
     ps_last_attempt := last_sync_attempt ir.2 |}.

(** [DatabaseManager.get_pending_syncs]: a [SELECT], so the database is
    returned as it was.  [ORDER BY created_at ASC] is a sort on that
    column; SQLite leaves the order among equal keys open, and nothing
    below depends on it. *)
Definition get_pending_syncs (clk : Clock) (max_age_days : Z)
    (db : Database) : Database * list PendingSync :=
  let cutoff := days_before (sql_now clk) max_age_days in
  let due := filter (λ ir : Z * Row, is_due (sql_now clk) cutoff ir.2)
                    (map_to_list (card_reads db)) in
  (db, to_pending <$> merge_sort created_le due).

(** The two [UPDATE] statements of [update_sync_status]. *)
Definition mark_success (clk : Clock) (status : string)
    (response : option string) (r : Row) : Row :=
  {| device_id := device_id r; card_id := card_id r;
     card_value := card_value r; timestamp := timestamp r;
     sync_status := status;
     sync_attempts := sync_attempts r;
     last_sync_attempt := Some (sql_now clk);
     next_retry := next_retry r;
     webhook_response := response;
     created_at := created_at r |}.

Definition mark_retry (clk : Clock) (status : string)
    (response : option string) (attempts : Z) (r : Row) : Row :=
  {| device_id := device_id r; card_id := card_id r;
     card_value := card_value r; timestamp := timestamp r;
     sync_status := status;
     sync_attempts := attempts;
     last_sync_attempt := Some (sql_now clk);
     next_retry := Some (py_now clk + backoff_minutes attempts * 60);
     webhook_response := response;
     created_at := created_at r |}.

Definition with_rows (db : Database) (m : gmap Z Row) : Database :=
  {| card_reads := m; sqlite_sequence := sqlite_sequence db |}.

(** [DatabaseManager.update_sync_status].  With [attempts] absent the
    counter is read back from the row; for a missing row [fetchone()] is
    [None], the subscript raises inside the [try], and nothing is
    written.  An [UPDATE] whose [WHERE id = ?] matches no row writes
    nothing either. *)
Definition update_sync_status (clk : Clock) (row_id : Z) (status : string)
    (response : option string) (attempts : option Z)
    (db : Database) : Database :=
  if decide (status = "success") then
    with_rows db (alter (mark_success clk status response) row_id
                        (card_reads db))
  else
    match attempts with
    | Some a =>
        with_rows db (alter (mark_retry clk status response a) row_id
                            (card_reads db))
    | None =>
        match card_reads db !! row_id with
        | None => db
        | Some r =>
            with_rows db
              (alter (mark_retry clk status response (sync_attempts r + 1))
                     row_id (card_reads db))
        end
    end.

End Store.

(** ** Delivery client and drain pass *)

Module Worker.
Import Store.

(** The keys of the configuration dictionary the core reads. *)
Record Config := mkConfig {
  webhook_url : option string;
  api_key : option string
}.

Record RFIDReader := mkReader {
  config : Config;
  reader_device_id : string
}.

(** One call of [requests.post]: URL, the JSON payload
    ([device_id], [card_id], [card_value]) and the headers. *)
Record Request := mkRequest {
  req_url : string;
  req_device_id : string;
  req_card_id : string;
  req_card_value : string;
  req_headers : list (string * string)
}.

(** What the call does: a response, a [RequestException], or any other
    exception. *)
Inductive PostResult :=
  | Response (status_code : Z) (text : string)
  | RequestException (msg : string)
  | OtherException (msg : string).

(** Result of [send_webhook]: the returned pair, or an exception that
    passes through its [except requests.exceptions.RequestException]. *)
Inductive SendResult :=
  | Returned (success : bool) (response : string)
  | Raised (msg : string).

(** The surroundings while one event is processed: the clocks and the
    behaviour of the network. *)
Record Moment := mkMoment {
  clock : Clock;
  network : Request → PostResult
}.

(** [not webhook_url]: the key is missing or holds an empty string. *)
Definition no_endpoint (rd : RFIDReader) : Prop :=
  webhook_url (config rd) = None ∨ webhook_url (config rd) = Some "".

(** [RFIDReader.send_webhook], with the list of network calls it made.
    [if not webhook_url] holds for a missing key and for an empty string;
    likewise [if api_key]. *)
Definition send_webhook (rd : RFIDReader) (net : Request → PostResult)
    (cid cval : string) : list Request * SendResult :=
  match webhook_url (config rd) with
  | None | Some "" => ([], Returned false "No webhook URL configured")
  | Some url =>
      let headers :=
        ("Content-Type", "application/json") ::
        match api_key (config rd) with
        | None | Some "" => []
        | Some key => [("x-api-key", key)]
        end in
      let rq := {| req_url := url;
                   req_device_id := reader_device_id rd;
                   req_card_id := cid;
                   req_card_value := cval;
                   req_headers := headers |} in
      ([rq],
       match net rq with
       | Response code text =>
           if decide (code = 200) then Returned true text
           else Returned false ("HTTP " +:+ pretty code +:+ ": " +:+ text)
       | RequestException e => Returned false e
       | OtherException e => Raised e
       end)
  end.

(** The body of the [for] loop of [sync_pending_data] for one fetched
    tuple, [try] and [except] included. *)
Definition sync_one (rd : RFIDReader) (mt : Moment) (ps : PendingSync)
    (db : Database) : Database * list Request :=
  let '(sent, res) :=
    send_webhook rd (network mt) (ps_card_id ps) (ps_card_value ps) in
  match res with
  | Returned true response =>
      (update_sync_status (clock mt) (ps_id ps) "success" (Some response)
                          None db, sent)
  | Returned false response =>
      (update_sync_status (clock mt) (ps_id ps) "pending" (Some response)
                          (Some (ps_attempts ps + 1)) db, sent)
  | Raised e =>
      (update_sync_status (clock mt) (ps_id ps) "pending" (Some e)
                          (Some (ps_attempts ps + 1)) db, sent)
  end.

Definition sync_all (rd : RFIDReader) (moment_of : Z → Moment)
    (batch : list PendingSync) (db : Database) : Database * list Request :=
  foldl (λ acc ps,
           let '(db', sent) := sync_one rd (moment_of (ps_id ps)) ps acc.1 in
           (db', acc.2 ++ sent))
        (db, []) batch.

(** [RFIDReader.sync_pending_data]: one drain pass.  [fetch_clk] is the
    clock when the batch is fetched (with the default window of 7 days),
    [moment_of i] the surroundings while the event with key [i] is
    processed.  Returns the database and the network calls made. *)
Definition sync_pending_data (rd : RFIDReader) (fetch_clk : Clock)
    (moment_of : Z → Moment) (db : Database) : Database * list Request :=
  let '(db0, pending_syncs) := get_pending_syncs fetch_clk 7 db in
  sync_all rd moment_of pending_syncs db0.

End Worker.

(** ** Schema migration *)

Module Migration.
Import Store.

(** A row of the previous layout.  Its [CREATE TABLE] is not part of the
    sources; the columns are those the migration's [SELECT] names, typed
    as the columns of the same name in the current layout.  The single
    payload column is [card_value]. *)
Record LegacyRow := mkLegacyRow {
  l_device_id : string;
  l_card_value : string;
  l_timestamp : Z;
  l_sync_status : string;
  l_sync_attempts : Z;
  l_last_sync_attempt : option Z;
  l_next_retry : option Z;
  l_webhook_response : option string;
  l_created_at : Z
}.

(** The [card_reads] table on disk: of the previous layout, of the
    current one, or with any other list of columns.  For the last,
    [rows] gives per key what the columns named by the migration's
    [SELECT] hold, typed as in [LegacyRow]; it is consulted only when
    the table has them all. *)
Inductive Table :=
  | LegacyTable (rows : gmap Z LegacyRow)
  | CurrentTable (db : Database)
  | OtherTable (columns : list string) (rows : gmap Z LegacyRow).

(** What is found at the database path. *)
Inductive Disk :=
  | Absent                       (* no file *)
  | CannotOpen (err : string)    (* sqlite3.connect raises *)
  | NotADatabase (err : string)  (* connect succeeds, any statement raises *)
  | Readable (card_reads_table : option Table) (card_reads_new : bool).

Inductive Outcome :=
  | Returns
  | Raises (err : string)
  | SysExit (code : Z).

(** Lines written at level ERROR. *)
Definition Log := list string.

Definition current_columns : list string :=
  ["id"; "device_id"; "card_id"; "card_value"; "timestamp"; "sync_status";
   "sync_attempts"; "last_sync_attempt"; "next_retry"; "webhook_response";
   "created_at"].

Definition legacy_columns : list string :=
  ["id"; "device_id"; "card_value"; "timestamp"; "sync_status";
   "sync_attempts"; "last_sync_attempt"; "next_retry"; "webhook_response";
   "created_at"].

(** [PRAGMA table_info(card_reads)]: no rows for a missing table. *)
Definition table_info (t : option Table) : list string :=
  match t with
  | None => []
  | Some (LegacyTable _) => legacy_columns
  | Some (CurrentTable _) => current_columns
  | Some (OtherTable columns _) => columns
  end.

(** [check_schema_version].  Connecting to a missing file creates an
    empty database.  Whatever columns a readable table has, the answer
    rests on the presence of [card_id] alone; [unknown] is the answer of
    the [except] branch. *)
Definition check_schema_version (d : Disk) : Disk * Log * string :=
  match d with
  | Absent => (Readable None false, [], "old")
  | CannotOpen e | NotADatabase e =>
      (d, ["Error checking schema: " +:+ e], "unknown")
  | Readable t _ =>
      (d, [],
       if bool_decide ("card_id" ∈ table_info t) then "new" else "old")
  end.

(** The [INSERT ... SELECT] of the migration, for one row. *)
Definition migrate_row (l : LegacyRow) : Row :=
  {| device_id := l_device_id l;
     card_id := l_card_value l;
     card_value := "";
     timestamp := l_timestamp l;
     sync_status := l_sync_status l;
     sync_attempts := l_sync_attempts l;
     last_sync_attempt := l_last_sync_attempt l;
     next_retry := l_next_retry l;
     webhook_response := l_webhook_response l;
     created_at := l_created_at l |}.

(** The columns the migration's [SELECT] reads from [card_reads]; a table
    of the current layout has them all. *)
Definition as_legacy (r : Row) : LegacyRow :=
  {| l_device_id := device_id r;
     l_card_value := card_value r;
     l_timestamp := timestamp r;
     l_sync_status := sync_status r;
     l_sync_attempts := sync_attempts r;
     l_last_sync_attempt := last_sync_attempt r;
     l_next_retry := next_retry r;
     l_webhook_response := webhook_response r;
     l_created_at := created_at r |}.

Definition selected_rows (t : Table) : gmap Z LegacyRow :=
  match t with
  | LegacyTable rows => rows
  | CurrentTable db => as_legacy <$> card_reads db
  | OtherTable _ rows => rows
  end.

(** The first column named by the migration's [SELECT] that is not among
    [columns]; preparing the statement fails on it. *)
Definition missing_column (columns : list string) : option string :=
  head (filter (λ c, c ∉ columns) legacy_columns).

(** The statements of [migrate_database] after the schema check, on a
    readable file.  [CREATE TABLE card_reads_new] runs outside a
    transaction and so persists when a later statement raises, as the
    copy does for a table that lacks a column it reads.  Explicit
    keys inserted into an [AUTOINCREMENT] table raise its
    [sqlite_sequence] entry to their maximum; the entry follows the table
    through [RENAME]. *)
Definition run_migration (t : option Table) (card_reads_new : bool)
    : Disk * Outcome :=
  if card_reads_new then
    (Readable t true, Raises "table card_reads_new already exists")
  else
    match t with
    | None => (Readable None true, Raises "no such table: card_reads")
    | Some tbl =>
        match missing_column (table_info t) with
        | Some c => (Readable t true, Raises ("no such column: " +:+ c))
        | None =>
            let m := migrate_row <$> selected_rows tbl in
            (Readable (Some (CurrentTable {| card_reads := m;
                                              sqlite_sequence := max_rowid m |}))
                      false,
             Returns)
        end
    end.

(** [migrate_database]. *)
Definition migrate_database (d : Disk) : Disk * Log * Outcome :=
  match d with
  | CannotOpen e => (d, ["Error during migration: " +:+ e], Raises e)
  | _ =>
      let '(d1, log, schema_version) := check_schema_version d in
      if decide (schema_version = "new") then (d1, log, Returns)
      else if decide (schema_version = "unknown") then
        (d1, log ++ ["Could not determine database schema"], Returns)
      else
        match d1 with
        | Readable t n =>
            match run_migration t n with
            | (d2, Raises e) =>
                (d2, log ++ ["Error during migration: " +:+ e], Raises e)
            | (d2, o) => (d2, log, o)
            end
        | _ => (d1, log, Returns)
        end
  end.

(** [main] of the migration script. *)
Definition main (d : Disk) : Disk * Log * Outcome :=
  match d with
  | Absent => (d, [], Returns)
  | _ =>
      let '(d1, log, schema_version) := check_schema_version d in
      if decide (schema_version = "new") then (d1, log, Returns)
      else if decide (schema_version = "old") then
        match migrate_database d1 with
        | (d2, log2, Raises e) =>
            (d2, log ++ log2 ++ ["Migration failed: " +:+ e], SysExit 1)
        | (d2, log2, o) => (d2, log ++ log2, o)
        end
      else
        (d1, log ++ ["Could not determine database schema"], SysExit 1)
  end.


End Migration.

(** ** Histories of the store

    The operations the capture path, the sync worker and any other caller
    of [DatabaseManager] can apply to the store, and their effect on the
    database. *)

Module History.
Import Store Worker.

Inductive Op :=
  | Append (clk : Clock) (dev cid cval : string)
  | FetchDue (clk : Clock) (max_age_days : Z)
  | RecordOutcome (clk : Clock) (row_id : Z) (status : string)
                  (response : option string) (attempts : option Z)
  | DrainPass (rd : RFIDReader) (fetch_clk : Clock) (moment_of : Z → Moment).

Definition step (db : Database) (op : Op) : Database :=
  match op with
  | Append clk dev cid cval => (insert_card_read clk dev cid cval db).1
  | FetchDue clk n => (get_pending_syncs clk n db).1
  | RecordOutcome clk i status response attempts =>
      update_sync_status clk i status response attempts db
  | DrainPass rd fetch_clk moment_of =>
      (sync_pending_data rd fetch_clk moment_of db).1
  end.

Definition run (ops : list Op) (db : Database) : Database :=
  foldl step db ops.

(** [op] records a non-success outcome for the row [i] directly. *)
Definition reschedules (i : Z) (op : Op) : Prop :=
  match op with
  | RecordOutcome _ j status _ _ => j = i ∧ status ≠ "success"
  | _ => False
  end.

(** The row [i] exists and carries the status written by a successful
    delivery. *)
Definition delivered (i : Z) (db : Database) : Prop :=
  ∃ r, card_reads db !! i = Some r ∧ sync_status r = "success".

(** The keys a fetch returns. *)
Definition fetched_ids (clk : Clock) (max_age_days : Z) (db : Database)
    : list Z :=
  ps_id <$> (get_pending_syncs clk max_age_days db).2.

End History.

(** ** Capture path *)

Module Capture.
Import Store Worker.

(** Python's [str.isspace] on one character, for code points below 256
    (the strings of this development hold such code points): the ASCII
    controls 9 to 13 and 28 to 31, the space, U+0085 and U+00A0. *)
Definition is_space (c : Ascii.ascii) : bool :=
  let n := Ascii.nat_of_ascii c in
  ((9 <=? n) && (n <=? 13) || (28 <=? n) && (n <=? 32)
   || (n =? 133) || (n =? 160))%nat.

Fixpoint lstrip (s : string) : string :=
  match s with
  | EmptyString => EmptyString
  | String c s' => if is_space c then lstrip s' else s
  end.

Fixpoint rstrip (s : string) : string :=
  match s with
  | EmptyString => EmptyString
  | String c s' =>
      match rstrip s' with
      | EmptyString => if is_space c then EmptyString
                       else String c EmptyString
      | t => String c t
      end
  end.

(** [str.strip()] without argument. *)
Definition strip (s : string) : string := rstrip (lstrip s).

(** What [self.reader.read()] does: it returns the id of the card and
    the text stored on it, or raises. *)
Inductive Reading :=
  | CardRead (id : Z) (text : string)
  | ReadFailed.

(** [RFIDReader.read_card].  The state is [self.last_card_id]; the result
    is the new state and the returned value. *)
Definition read_card (last_card_id : option string) (rd : Reading)
    : option string * option (string * string) :=
  match rd with
  | ReadFailed => (last_card_id, None)
  | CardRead id text =>
      let cid := pretty id in
      let cval := match text with
                  | EmptyString => EmptyString
                  | _ => strip text
                  end in
      if decide (Some cid = last_card_id) then (last_card_id, None)
      else (Some cid, Some (cid, cval))
  end.

(** One turn of the loop of [RFIDReader.run]: read, and store what was
    detected. *)
Definition run_once (rd : RFIDReader) (st : option string * Database)
    (x : Clock * Reading) : option string * Database :=
  let '(last_card_id, card_data) := read_card st.1 x.2 in
  match card_data with
  | Some (cid, cval) =>
      (last_card_id,
       (insert_card_read x.1 (reader_device_id rd) cid cval st.2).1)
  | None => (last_card_id, st.2)
  end.

(** The loop of [RFIDReader.run] over the readings the sensor delivers,
    each with the clock at that turn. *)
Definition run_loop (rd : RFIDReader) (readings : list (Clock * Reading))
    (st : option string * Database) : option string * Database :=
  foldl (run_once rd) st readings.

(** The values [read_card] returns over a sequence of readings. *)
Fixpoint detections (last_card_id : option string) (readings : list Reading)
    : list (string * string) :=
  match readings with
  | [] => []
  | rd :: readings' =>
      match read_card last_card_id rd with
      | (last', Some card_data) => card_data :: detections last' readings'
      | (last', None) => detections last' readings'
      end
  end.

Definition is_read (rd : Reading) : bool :=
  match rd with
  | CardRead _ _ => true
  | ReadFailed => false
  end.

End Capture.

(** ** The configuration file *)

Module ConfigFile.
Import Capture.

(** The line feed (code 10) and the double quote (code 34). *)
Definition newline : Ascii.ascii :=
  Ascii.Ascii false true false true false false false false.
Definition nl : string := String newline EmptyString.
Definition dquote : string :=
  String (Ascii.Ascii false true false false false true false false)
         EmptyString.

(** [s.startswith(p)]. *)
Fixpoint startswith (p s : string) : bool :=
  match p with
  | EmptyString => true
  | String a p' =>
      match s with
      | EmptyString => false
      | String b s' => Ascii.eqb a b && startswith p' s'
      end
  end.

(** [p in s] on strings. *)
Fixpoint contains (p s : string) : bool :=
  startswith p s
  || match s with
     | EmptyString => false
     | String _ s' => contains p s'
     end.

(** [s.split('\n')]: never empty; the empty string gives one empty
    line. *)
Fixpoint split_lines (s : string) : list string :=
  match s with
  | EmptyString => [EmptyString]
  | String c s' =>
      if Ascii.eqb c newline then EmptyString :: split_lines s'
      else
        match split_lines s' with
        | l :: ls => String c l :: ls
        | [] => [String c EmptyString]
        end
  end.

(** ['\n'.join(lines)]. *)
Fixpoint join_lines (lines : list string) : string :=
  match lines with
  | [] => EmptyString
  | l :: ls =>
      match ls with
      | [] => l
      | _ :: _ => l +:+ nl +:+ join_lines ls
      end
  end.

Fixpoint no_newline (s : string) : bool :=
  match s with
  | EmptyString => true
  | String c s' => negb (Ascii.eqb c newline) && no_newline s'
  end.

(** [line.strip().startswith('device_id')]. *)
Definition is_device_id_line (line : string) : bool :=
  startswith "device_id" (strip line).

(** The [for] loop with its [break]: the first line that qualifies is
    replaced. *)
Fixpoint replace_first (new_line : string) (lines : list string)
    : list string :=
  match lines with
  | [] => []
  | l :: ls =>
      if is_device_id_line l then new_line :: ls
      else l :: replace_first new_line ls
  end.

(** The line written: [device_id = "<id>"]. *)
Definition device_id_line (id : string) : string :=
  "device_id = " +:+ dquote +:+ id +:+ dquote.

(** [RFIDReader.update_config_device_id], from the text read to the text
    written. *)
Definition update_config_device_id (id content : string) : string :=
  if contains "device_id" content then
    join_lines (replace_first (device_id_line id) (split_lines content))
  else
    content +:+ nl +:+ device_id_line id +:+ nl.

End ConfigFile.

(** ** Operator commands ([db_manager.py]) *)

Module Admin.
Import Store Worker.

(** The [UPDATE] of [retry_failed]: [SET next_retry = datetime('now')
    WHERE sync_status = 'pending']. *)
Definition retry_row (clk : Clock) (r : Row) : Row :=
  if decide (sync_status r = "pending") then
    {| device_id := device_id r; card_id := card_id r;
       card_value := card_value r; timestamp := timestamp r;
       sync_status := sync_status r;
       sync_attempts := sync_attempts r;
       last_sync_attempt := last_sync_attempt r;
       next_retry := Some (sql_now clk);
       webhook_response := webhook_response r;
       created_at := created_at r |}
  else r.

(** [retry_failed], with the number of rows it reports as reset. *)
Definition retry_failed (clk : Clock) (db : Database) : Database * nat :=
  (with_rows db (retry_row clk <$> card_reads db),
   size (filter (λ ir : Z * Row, sync_status ir.2 = "pending")
                (card_reads db))).

(** The [WHERE] clause of [cleanup_old]: [sync_status = 'success' AND
    created_at < datetime('now', '-N days')]. *)
Definition is_old_success (clk : Clock) (days : Z) (r : Row) : Prop :=
  sync_status r = "success"
  ∧ match days_before (sql_now clk) days with
    | None => False
    | Some c => created_at r < c
    end.

#[global] Instance is_old_success_dec clk days r :
  Decision (is_old_success clk days r).
Proof.
  unfold is_old_success. destruct (days_before (sql_now clk) days); apply _.
Defined.

(** [cleanup_old], with the number of rows it counted: the database is
    left alone when the count is zero, otherwise the counted rows are
    deleted.  The [SELECT COUNT] and the [DELETE] are taken to read the
    clock within the same second.  A [DELETE] does not lower the
    [AUTOINCREMENT] counter. *)
Definition cleanup_old (clk : Clock) (days : Z) (db : Database)
    : Database * nat :=
  let count := size (filter (λ ir : Z * Row, is_old_success clk days ir.2)
                            (card_reads db)) in
  if decide (count = 0%nat) then (db, count)
  else
    (with_rows db (filter (λ ir : Z * Row, ¬ is_old_success clk days ir.2)
                          (card_reads db)),
     count).

(** Histories that include the operator's commands. *)
Inductive AdminOp :=
  | Core (op : History.Op)
  | RetryFailed (clk : Clock)
  | CleanupOld (clk : Clock) (days : Z).

Definition admin_step (db : Database) (op : AdminOp) : Database :=
  match op with
  | Core op => History.step db op
  | RetryFailed clk => (retry_failed clk db).1
  | CleanupOld clk days => (cleanup_old clk days db).1
  end.

Definition admin_run (ops : list AdminOp) (db : Database) : Database :=
  foldl admin_step db ops.

End Admin.

(** ** Statistics *)

Module Observability.
Import Store.

(** One more row in the group of [status]. *)
Definition tally (status : string) (acc : gmap string nat)
    : gmap string nat :=
  <[status := S (default 0%nat (acc !! status))]> acc.

(** [DatabaseManager.get_sync_stats]: [SELECT sync_status, COUNT( * )
    ... GROUP BY sync_status], turned into a dictionary. *)
Definition get_sync_stats (db : Database) : gmap string nat :=
  foldr (λ ir acc, tally (sync_status ir.2) acc) ∅
        (map_to_list (card_reads db)).

(** The number of rows that carry [status]. *)
Definition count_status (status : string) (db : Database) : nat :=
  length (filter (λ ir : Z * Row, sync_status ir.2 = status)
                 (map_to_list (card_reads db))).

(** The sum of the values of a statistics dictionary. *)
Definition total (stats : gmap string nat) : nat :=
  map_fold (λ _ n acc, (n + acc)%nat) 0%nat stats.

End Observability.

(** ** Predicates on rows and databases *)

Module Invariants.
Import Store.

(** [r'] holds the same event as [r]: the columns written at insert and
    assigned by no later statement. *)
Definition same_event (r r' : Row) : Prop :=
  device_id r' = device_id r ∧ card_id r' = card_id r
  ∧ card_value r' = card_value r ∧ timestamp r' = timestamp r
  ∧ created_at r' = created_at r.

(** Every key in the table is at most the [sqlite_sequence] counter, as
    SQLite maintains it for an [AUTOINCREMENT] key. *)
Definition sequence_covers (db : Database) : Prop :=
  ∀ i r, card_reads db !! i = Some r → i ≤ sqlite_sequence db.

(** [op] does not pass an attempt count of the caller's choosing: a
    recorded failure either reads the count back from the row
    ([attempts] absent) or is part of a drain pass. *)
Definition counts_from_row (op : History.Op) : Prop :=
  match op with
  | History.RecordOutcome _ _ status _ (Some _) => status = "success"
  | _ => True
  end.

(** The [card_reads] table a database file holds, if any. *)
Definition disk_table (d : Migration.Disk) : option Migration.Table :=
  match d with
  | Migration.Readable t _ => t
  | _ => None
  end.

End Invariants.

(** * Properties *)

Import Store Worker Migration History.

(** ** Helper lemmas on the store *)

Lemma max_rowid_nonneg (m : gmap Z Row) : 0 ≤ max_rowid m.
Proof.
  unfold max_rowid.
  apply (map_fold_weak_ind (λ b _, 0 ≤ b)); intros; lia.
Qed.

Lemma max_rowid_ge (m : gmap Z Row) i r :
  m !! i = Some r → i ≤ max_rowid m.
Proof.
  unfold max_rowid. revert i r.
  apply (map_fold_weak_ind (λ b m, ∀ i r, m !! i = Some r → i ≤ b)).
  - intros i r H. by rewrite lookup_empty in H.
  - intros j x m' b Hnone IH i r H.
    destruct (decide (j = i)) as [->|Hne].
    + lia.
    + rewrite lookup_insert_ne in H by done.
      specialize (IH i r H). lia.
Qed.

(** The key chosen by [insert_card_read] is not in use. *)
Lemma insert_card_read_fresh clk dev cid cval db :
  card_reads db !! (insert_card_read clk dev cid cval db).2 = None.
Proof.
  simpl. destruct (card_reads db !! _) as [r|] eqn:E; [|done].
  apply max_rowid_ge in E. lia.
Qed.

(** Membership in the result of [get_pending_syncs], through the sort
    and the projection. *)
Lemma elem_of_get_pending_syncs clk n db ps :
  ps ∈ (get_pending_syncs clk n db).2 ↔
  ∃ i r, card_reads db !! i = Some r
         ∧ is_due (sql_now clk) (days_before (sql_now clk) n) r = true
         ∧ ps = to_pending (i, r).
Proof.
  unfold get_pending_syncs. simpl.
  rewrite list_elem_of_fmap. split.
  - intros [[i r] [-> Hin]].
    rewrite merge_sort_Permutation in Hin.
    apply list_elem_of_filter in Hin as [Hdue Hin].
    apply elem_of_map_to_list in Hin.
    exists i, r. split; [done|]. split; [|done].
    simpl in Hdue. by apply Is_true_true.
  - intros (i & r & Hl & Hdue & ->).
    exists (i, r). split; [done|].
    rewrite merge_sort_Permutation.
    apply list_elem_of_filter. split.
    + simpl. by apply Is_true_true.
    + by apply elem_of_map_to_list.
Qed.

Lemma is_due_pending now cutoff r :
  is_due now cutoff r = true → sync_status r = "pending".
Proof.
  unfold is_due. intros H.
  apply andb_true_iff in H as [H _].
  apply andb_true_iff in H as [H _].
  by apply bool_decide_eq_true in H.
Qed.

Lemma pow2_mono (a b : Z) : 0 ≤ a → a ≤ b → 2 ^ a ≤ 2 ^ b.
Proof. intros. apply Z.pow_le_mono_r; lia. Qed.

(** ** C1: the backoff schedule *)

(** C1. For every attempt count [n >= 1], the delay that
    [update_sync_status] adds to the clock when it records a failure is
    [min(2^(n-1), 1440)] minutes; the delays are non-decreasing in [n],
    never exceed 1440 minutes, and equal 1440 minutes from [n = 12] on. *)
Theorem backoff_schedule (n : Z) (Hn : 1 ≤ n) :
  backoff_minutes n = Z.min (2 ^ (n - 1)) 1440
  ∧ (∀ clk i status resp db r,
       status ≠ "success" →
       card_reads db !! i = Some r →
       next_retry <$>
         (card_reads (update_sync_status clk i status resp (Some n) db) !! i)
       = Some (Some (py_now clk + Z.min (2 ^ (n - 1)) 1440 * 60)))
  ∧ (∀ m, n ≤ m → backoff_minutes n ≤ backoff_minutes m)
  ∧ backoff_minutes n ≤ 1440
  ∧ (n ≤ 11 → backoff_minutes n = 2 ^ (n - 1))
  ∧ (12 ≤ n → backoff_minutes n = 1440).
Proof.
  unfold backoff_minutes. repeat split.
  - intros clk i status resp db r Hs Hl.
    unfold update_sync_status. rewrite decide_False by done. simpl.
    rewrite lookup_alter_eq, Hl. done.
  - intros m Hm.
    assert (2 ^ (n - 1) ≤ 2 ^ (m - 1)) by (apply pow2_mono; lia). lia.
  - lia.
  - intros Hle.
    assert (2 ^ (n - 1) ≤ 2 ^ 10) by (apply pow2_mono; lia).
    change (2 ^ 10) with 1024 in *. lia.
  - intros Hge.
    assert (2 ^ 11 ≤ 2 ^ (n - 1)) by (apply pow2_mono; lia).
    change (2 ^ 11) with 2048 in *. lia.
Qed.

Lemma backoff_schedule_witness :
  1 ≤ 3 ∧ backoff_minutes 3 = Z.min (2 ^ (3 - 1)) 1440.
Proof.
  split; [lia|]. exact (proj1 (backoff_schedule 3 ltac:(lia))).
Defined.

(** ** C2: append, then fetch *)

(** The keys of a fetched batch are pairwise distinct. *)
Lemma get_pending_syncs_NoDup clk n db :
  NoDup (ps_id <$> (get_pending_syncs clk n db).2).
Proof.
  unfold get_pending_syncs. simpl.
  rewrite <- list_fmap_compose.
  change (ps_id ∘ to_pending) with (@fst Z Row).
  rewrite merge_sort_Permutation.
  apply (sublist_NoDup _ ((map_to_list (card_reads db)).*1)).
  - apply NoDup_fst_map_to_list.
  - apply fmap_sublist, sublist_filter.
Qed.

(** In a list with pairwise distinct keys, selecting by the key of a
    member yields that member alone. *)
Lemma filter_key_NoDup (l : list PendingSync) (x : PendingSync) :
  NoDup (ps_id <$> l) → x ∈ l →
  filter (λ ps, ps_id ps = ps_id x) l = [x].
Proof.
  induction l as [|y l IH]; intros Hnd Hin.
  - by apply not_elem_of_nil in Hin.
  - rewrite fmap_cons in Hnd. apply NoDup_cons in Hnd as [Hy Hnd].
    rewrite filter_cons.
    apply elem_of_cons in Hin as [->|Hin].
    + rewrite decide_True by done. f_equal.
      destruct (filter _ l) as [|z l'] eqn:E; [done|].
      assert (Hz : z ∈ filter (λ ps, ps_id ps = ps_id y) l)
        by (rewrite E; apply elem_of_cons; by left).
      apply list_elem_of_filter in Hz as [Hz1 Hz2].
      exfalso. apply Hy. rewrite <- Hz1.
      by apply list_elem_of_fmap_2.
    + rewrite decide_False; [by apply IH|].
      intros Heq. apply Hy. rewrite Heq.
      by apply list_elem_of_fmap_2.
Qed.

Lemma days_before_valid now n :
  valid_window now n → days_before now n = Some (now - n * 86400).
Proof. intros H. unfold days_before. by rewrite decide_True. Qed.

Lemma days_before_Some now n c :
  days_before now n = Some c ↔ valid_window now n ∧ c = now - n * 86400.
Proof.
  unfold days_before. destruct (decide (valid_window now n)); split.
  - intros [= <-]. done.
  - intros [_ ->]. done.
  - done.
  - intros [? _]. done.
Qed.

Lemma is_due_fresh_row clk dev cid cval max_age :
  valid_window (sql_now clk) max_age →
  is_due (sql_now clk) (days_before (sql_now clk) max_age)
    {| device_id := dev; card_id := cid; card_value := cval;
       timestamp := sql_now clk; sync_status := "pending";
       sync_attempts := 0; last_sync_attempt := None;
       next_retry := Some (sql_now clk); webhook_response := None;
       created_at := sql_now clk |} = true.
Proof.
  intros Hwin. rewrite days_before_valid by done.
  unfold is_due. simpl. destruct Hwin as [? ?].
  rewrite !bool_decide_eq_true_2; [done|lia|lia].
Qed.

(** C2 as stated fails: it allows every window, but for a window so long
    that the cutoff leaves SQLite's range of dates the cutoff is [NULL],
    and the fetch that follows the insert is empty. *)
Lemma append_then_fetch_counterexample :
  ¬ (∀ clk dev cid cval db max_age,
       0 ≤ max_age →
       (insert_card_read clk dev cid cval db).2
       ∈ ps_id <$> (get_pending_syncs clk max_age
                      (insert_card_read clk dev cid cval db).1).2).
Proof.
  intros H.
  specialize (H (clock_at 0 1700000000) "dev-1" "CARD-7" "hello" empty_db
                2470000 ltac:(lia)).
  vm_compute in H. by apply elem_of_nil in H.
Qed.

(** C2, amended. For every [(device_id, card_id, card_value)],
    [insert_card_read] adds exactly one row, under a key not in use
    before, with status [pending], attempt count 0 and [next_retry] equal
    to the time of the insert, and leaves every other row as it was; a
    [get_pending_syncs] at that same time with any window [max_age >= 0]
    that reaches back to a date SQLite handles returns exactly one tuple
    for the new key, and its fields are the inserted values.  On an empty
    store that tuple is the whole result. *)
Theorem append_then_fetch clk dev cid cval db max_age
    (Hwin : valid_window (sql_now clk) max_age) :
  let db' := (insert_card_read clk dev cid cval db).1 in
  let row_id := (insert_card_read clk dev cid cval db).2 in
  let event := {| ps_id := row_id; ps_device_id := dev; ps_card_id := cid;
                  ps_card_value := cval; ps_timestamp := sql_now clk;
                  ps_attempts := 0; ps_last_attempt := None |} in
  let fetched := (get_pending_syncs clk max_age db').2 in
  card_reads db !! row_id = None
  ∧ card_reads db' !! row_id =
      Some {| device_id := dev; card_id := cid; card_value := cval;
              timestamp := sql_now clk; sync_status := "pending";
              sync_attempts := 0; last_sync_attempt := None;
              next_retry := Some (sql_now clk); webhook_response := None;
              created_at := sql_now clk |}
  ∧ (∀ j, j ≠ row_id → card_reads db' !! j = card_reads db !! j)
  ∧ size (card_reads db') = S (size (card_reads db))
  ∧ event ∈ fetched
  ∧ filter (λ ps, ps_id ps = row_id) fetched = [event]
  ∧ (card_reads db = ∅ → fetched = [event]).
Proof.
  intros db' row_id event fetched.
  assert (Hfresh : card_reads db !! row_id = None)
    by apply insert_card_read_fresh.
  assert (Hin : event ∈ fetched).
  { apply elem_of_get_pending_syncs.
    eexists row_id, _. split; [apply lookup_insert_eq|].
    split; [by apply is_due_fresh_row|done]. }
  repeat split.
  - done.
  - apply lookup_insert_eq.
  - intros j Hj. subst db'. simpl. by rewrite lookup_insert_ne.
  - subst db'. simpl. by apply map_size_insert_None.
  - done.
  - apply (filter_key_NoDup fetched event); [|done].
    apply get_pending_syncs_NoDup.
  - intros Hempty. subst fetched db'.
    unfold get_pending_syncs, insert_card_read. simpl.
    rewrite Hempty, insert_empty, map_to_list_singleton.
    rewrite filter_cons, filter_nil.
    rewrite decide_True.
    2:{ simpl. apply Is_true_true. by apply is_due_fresh_row. }
    subst event row_id. simpl. rewrite Hempty. reflexivity.
Qed.

Lemma append_then_fetch_witness :
  valid_window 1000 7 ∧
  (get_pending_syncs (clock_at 0 1000) 7
     (insert_card_read (clock_at 0 1000) "dev-1" "CARD-7" "hello"
                       empty_db).1).2
  = [ {| ps_id := 1; ps_device_id := "dev-1"; ps_card_id := "CARD-7";
         ps_card_value := "hello"; ps_timestamp := 1000;
         ps_attempts := 0; ps_last_attempt := None |} ].
Proof.
  assert (Hwin : valid_window 1000 7) by (vm_compute; intuition discriminate).
  split; [exact Hwin|].
  apply (append_then_fetch (clock_at 0 1000) "dev-1" "CARD-7" "hello"
                           empty_db 7 Hwin).
  reflexivity.
Defined.

(** ** C3: a delivered event stays out of every fetch *)

Lemma delivered_not_fetched i db clk n :
  delivered i db → i ∉ fetched_ids clk n db.
Proof.
  intros (r & Hl & Hs) Hin. unfold fetched_ids in Hin.
  apply list_elem_of_fmap in Hin as (ps & -> & Hin).
  apply elem_of_get_pending_syncs in Hin as (j & r' & Hl' & Hdue & ->).
  simpl in Hl. rewrite Hl in Hl'. injection Hl' as <-.
  apply is_due_pending in Hdue. congruence.
Qed.

Lemma delivered_insert i db clk dev cid cval :
  delivered i db → delivered i (insert_card_read clk dev cid cval db).1.
Proof.
  intros (r & Hl & Hs). exists r. split; [|done]. simpl.
  rewrite lookup_insert_ne; [done|].
  intros Heq.
  pose proof (insert_card_read_fresh clk dev cid cval db) as Hf.
  simpl in Hf. rewrite Heq in Hf. congruence.
Qed.

Lemma delivered_update i db clk j status resp att :
  delivered i db → ¬ (j = i ∧ status ≠ "success") →
  delivered i (update_sync_status clk j status resp att db).
Proof.
  intros (r & Hl & Hs) Hno. unfold update_sync_status, delivered.
  destruct (decide (status = "success")) as [->|Hst]; simpl.
  - rewrite lookup_alter. destruct (decide (j = i)) as [->|Hne].
    + rewrite Hl. simpl. eauto.
    + eauto.
  - assert (Hne : j ≠ i) by (intros ->; apply Hno; done).
    destruct att as [a|]; simpl.
    + rewrite lookup_alter_ne by done. eauto.
    + destruct (card_reads db !! j); simpl.
      * rewrite lookup_alter_ne by done. eauto.
      * eauto.
Qed.

Lemma delivered_sync_one i rd mt ps db :
  ps_id ps ≠ i → delivered i db → delivered i (sync_one rd mt ps db).1.
Proof.
  intros Hne Hd. unfold sync_one.
  destruct (send_webhook rd (network mt) (ps_card_id ps) (ps_card_value ps))
    as [sent [[] response|e]]; simpl;
    apply delivered_update; try done; intros [? _]; done.
Qed.

Lemma delivered_sync_all i rd moment_of batch :
  i ∉ ps_id <$> batch →
  ∀ acc : Database * list Request,
    delivered i acc.1 →
    delivered i
      (foldl (λ acc ps,
                let '(db', sent) :=
                  sync_one rd (moment_of (ps_id ps)) ps acc.1 in
                (db', acc.2 ++ sent)) acc batch).1.
Proof.
  induction batch as [|ps batch IH]; intros Hnot acc Hd; [done|].
  rewrite fmap_cons in Hnot. apply not_elem_of_cons in Hnot as [Hne Hnot].
  simpl. apply IH; [done|].
  pose proof (delivered_sync_one i rd (moment_of (ps_id ps)) ps acc.1
                ltac:(congruence) Hd) as Hone.
  by destruct (sync_one rd (moment_of (ps_id ps)) ps acc.1).
Qed.

Lemma delivered_drain i rd fetch_clk moment_of db :
  delivered i db →
  delivered i (sync_pending_data rd fetch_clk moment_of db).1.
Proof.
  intros Hd. unfold sync_pending_data, sync_all.
  apply delivered_sync_all; [|done].
  by apply (delivered_not_fetched i db fetch_clk 7).
Qed.

Lemma delivered_step i db op :
  ¬ reschedules i op → delivered i db → delivered i (step db op).
Proof.
  intros Hno Hd. destruct op; simpl.
  - by apply delivered_insert.
  - done.
  - by apply delivered_update.
  - by apply delivered_drain.
Qed.

Lemma delivered_run i ops :
  Forall (λ op, ¬ reschedules i op) ops →
  ∀ db, delivered i db → delivered i (run ops db).
Proof.
  unfold run. induction 1 as [|op ops Hop _ IH]; intros db Hd; [done|].
  simpl. apply IH. by apply delivered_step.
Qed.

Lemma success_delivers clk i resp db :
  is_Some (card_reads db !! i) →
  delivered i (update_sync_status clk i "success" resp None db).
Proof.
  intros [r Hl]. unfold update_sync_status, delivered.
  rewrite decide_True by done. simpl.
  rewrite lookup_alter_eq, Hl. simpl. eauto.
Qed.

(** C3 as stated fails: a failure outcome recorded for a delivered event
    sets its status back to [pending], and the event is fetched again
    once its [next_retry] has passed. *)
Lemma delivered_terminal_counterexample :
  ¬ (∀ db clk i resp ops clk' max_age,
       is_Some (card_reads db !! i) →
       i ∉ fetched_ids clk' max_age
             (run ops (update_sync_status clk i "success" resp None db))).
Proof.
  intros H.
  specialize (H (insert_card_read (clock_at 0 1000) "dev-1" "CARD-7" "hello"
                                  empty_db).1
                (clock_at 0 1010) 1 (Some "ok")
                [RecordOutcome (clock_at 0 1020) 1 "pending" (Some "boom")
                               None]
                (clock_at 0 1080) 7).
  apply H.
  - vm_compute. eauto.
  - vm_compute. apply elem_of_cons. by left.
Qed.

(** C3, amended. Once [update_sync_status(i, 'success')] has been
    applied to an existing event, the event keeps the delivered status
    and is absent from every later [get_pending_syncs], at every time and
    for every window, through every sequence of inserts, fetches, drain
    passes of the sync worker, and recorded outcomes that are either for
    another event or successes. *)
Theorem delivered_stays_out db clk i resp ops clk' max_age
    (Hex : is_Some (card_reads db !! i))
    (Hops : Forall (λ op, ¬ reschedules i op) ops) :
  let db' := run ops (update_sync_status clk i "success" resp None db) in
  delivered i db' ∧ i ∉ fetched_ids clk' max_age db'.
Proof.
  intros db'.
  assert (Hd : delivered i db').
  { apply delivered_run; [done|]. by apply success_delivers. }
  split; [done|]. by apply delivered_not_fetched.
Qed.

Lemma delivered_stays_out_witness :
  1 ∉ fetched_ids (clock_at 0 5000) 7
        (run [Append (clock_at 0 1020) "dev-1" "CARD-8" "";
              DrainPass {| config := {| webhook_url := Some "http://hook";
                                        api_key := None |};
                           reader_device_id := "dev-1" |}
                        (clock_at 0 1030)
                        (λ _, {| clock := clock_at 0 1031;
                                 network := λ _, Response 500 "no" |});
              RecordOutcome (clock_at 0 1100) 1 "success" (Some "again")
                            None]
             (update_sync_status (clock_at 0 1010) 1 "success" (Some "ok")
                None
                (insert_card_read (clock_at 0 1000) "dev-1" "CARD-7" "hello"
                                  empty_db).1)).
Proof.
  apply delivered_stays_out.
  - vm_compute. eauto.
  - repeat constructor; simpl; intros H; try done.
    destruct H as [_ H]. by apply H.
Defined.

(** ** C4: recording a failure *)

Lemma lookup_update_ne clk i j status resp att db :
  j ≠ i →
  card_reads (update_sync_status clk j status resp att db) !! i
  = card_reads db !! i.
Proof.
  intros Hne. unfold update_sync_status.
  destruct (decide (status = "success")); simpl.
  - by rewrite lookup_alter_ne.
  - destruct att; simpl.
    + by rewrite lookup_alter_ne.
    + destruct (card_reads db !! j); simpl; [|done].
      by rewrite lookup_alter_ne.
Qed.

(** What a recorded failure writes, with the counter passed in or read
    back from the row. *)
Lemma lookup_update_retry clk i status resp att db r :
  status ≠ "success" →
  card_reads db !! i = Some r →
  card_reads (update_sync_status clk i status resp att db) !! i
  = Some (mark_retry clk status resp
            (default (sync_attempts r + 1) att) r).
Proof.
  intros Hs Hl. unfold update_sync_status.
  rewrite decide_False by done.
  destruct att; simpl.
  - by rewrite lookup_alter_eq, Hl.
  - rewrite Hl. simpl. by rewrite lookup_alter_eq, Hl.
Qed.

Lemma backoff_minutes_nonneg n : 0 ≤ backoff_minutes n.
Proof.
  unfold backoff_minutes.
  assert (0 ≤ 2 ^ (n - 1)) by (apply Z.pow_nonneg; lia). lia.
Qed.

(** What a recorded failure does to a pending event, with both clocks in
    view: the counter grows by one, the reason is stored, [next_retry] is
    the local reading plus the backoff, and a later fetch (within the
    window) returns the event exactly when its UTC reading has reached
    that value. *)
Lemma record_failure_fetch clk i reason db r clk' max_age :
  card_reads db !! i = Some r →
  valid_window (sql_now clk') max_age →
  sql_now clk' - max_age * 86400 ≤ created_at r →
  let db' := update_sync_status clk i "pending" reason None db in
  let n := sync_attempts r + 1 in
  card_reads db' !! i = Some (mark_retry clk "pending" reason n r)
  ∧ (i ∈ fetched_ids clk' max_age db'
     ↔ py_now clk + backoff_minutes n * 60 ≤ sql_now clk').
Proof.
  intros Hl Hage Hwin db' n.
  assert (Hrow : card_reads db' !! i = Some (mark_retry clk "pending" reason n r))
    by (by apply (lookup_update_retry clk i "pending" reason None db r)).
  split; [done|]. unfold fetched_ids. rewrite list_elem_of_fmap. split.
  - intros (ps & Hi & Hin).
    apply elem_of_get_pending_syncs in Hin as (j & r' & Hl' & Hdue & ->).
    simpl in Hi. subst j. rewrite Hrow in Hl'. injection Hl' as <-.
    unfold is_due in Hdue. simpl in Hdue.
    apply andb_true_iff in Hdue as [Hdue _].
    by apply bool_decide_eq_true in Hdue.
  - intros Hle. exists (to_pending (i, mark_retry clk "pending" reason n r)).
    split; [done|]. apply elem_of_get_pending_syncs.
    exists i, (mark_retry clk "pending" reason n r).
    split; [done|]. split; [|done].
    rewrite days_before_valid by done. unfold is_due. simpl.
    rewrite !bool_decide_eq_true_2; [done|lia|done].
Qed.

(** Where the two clocks read the same, a recorded failure is as the
    specification describes it: [next_retry] is the time of the write
    plus the backoff, and the event is fetched again exactly from that
    time on. *)
Lemma record_failure_clocks_agree clk i reason db r clk' max_age :
  py_now clk = sql_now clk →
  card_reads db !! i = Some r →
  valid_window (sql_now clk') max_age →
  sql_now clk' - max_age * 86400 ≤ created_at r →
  let db' := update_sync_status clk i "pending" reason None db in
  let n := sync_attempts r + 1 in
  (next_retry <$> card_reads db' !! i)
  = Some (Some (sql_now clk + backoff_minutes n * 60))
  ∧ (i ∈ fetched_ids clk' max_age db'
     ↔ sql_now clk + backoff_minutes n * 60 ≤ sql_now clk').
Proof.
  intros Hclk Hl Hage Hwin db' n.
  destruct (record_failure_fetch clk i reason db r clk' max_age Hl Hage Hwin)
    as [Hrow Hiff].
  fold db' n in Hrow, Hiff. rewrite <- Hclk. split; [|done].
  rewrite Hrow. done.
Qed.

(** C4, evaluated on a host whose local time is five hours behind UTC.
    An event inserted at UTC 1000000 fails its first delivery at UTC
    1000030.  The counter becomes 1 and the reason is stored, but
    [next_retry] is computed from the local clock: it is 982090, which
    lies before the write instead of one minute after it, and the event
    is fetched again in the very second of the failure.  On a host two
    hours ahead of UTC the same failure keeps the event out of the
    fetch for two hours beyond the one-minute backoff. *)
Theorem failure_next_retry_local_clock :
  let db1 := (insert_card_read (clock_at (-18000) 1000000)
                               "dev-1" "CARD-7" "hello" empty_db).1 in
  let west := update_sync_status (clock_at (-18000) 1000030) 1 "pending"
                (Some "HTTP 500: down") None db1 in
  let east := update_sync_status (clock_at 7200 1000030) 1 "pending"
                (Some "HTTP 500: down") None db1 in
  card_reads west !! 1
  = Some {| device_id := "dev-1"; card_id := "CARD-7";
            card_value := "hello"; timestamp := 1000000;
            sync_status := "pending"; sync_attempts := 1;
            last_sync_attempt := Some 1000030;
            next_retry := Some 982090;
            webhook_response := Some "HTTP 500: down";
            created_at := 1000000 |}
  ∧ 1000030 + backoff_minutes 1 * 60 = 1000090
  ∧ fetched_ids (clock_at (-18000) 1000030) 7 west = [1]
  ∧ (next_retry <$> card_reads east !! 1) = Some (Some 1007290)
  ∧ fetched_ids (clock_at 7200 1000090) 7 east = []
  ∧ fetched_ids (clock_at 7200 1007289) 7 east = []
  ∧ fetched_ids (clock_at 7200 1007290) 7 east = [1].
Proof. vm_compute. repeat split. Qed.

(** ** C5: migrating the previous layout *)

Lemma check_schema_legacy rows n :
  check_schema_version (Readable (Some (LegacyTable rows)) n)
  = (Readable (Some (LegacyTable rows)) n, [], "old").
Proof. reflexivity. Qed.

(** C5. Migrating a table of the previous layout succeeds and yields a
    table of the current layout with the same keys and as many rows; the
    row under each key has [card_id] equal to the legacy payload, an empty
    [card_value], and the device, the status, the attempt count, the
    stored response and all four timestamps of the legacy row. *)
Theorem migration_preserves_rows (rows : gmap Z LegacyRow) :
  ∃ db',
    migrate_database (Readable (Some (LegacyTable rows)) false)
    = (Readable (Some (CurrentTable db')) false, [], Returns)
    ∧ main (Readable (Some (LegacyTable rows)) false)
      = (Readable (Some (CurrentTable db')) false, [], Returns)
    ∧ dom (card_reads db') = dom rows
    ∧ size (card_reads db') = size rows
    ∧ (∀ i, card_reads db' !! i = None ↔ rows !! i = None)
    ∧ (∀ i l, rows !! i = Some l →
         card_reads db' !! i
         = Some {| device_id := l_device_id l;
                   card_id := l_card_value l;
                   card_value := "";
                   timestamp := l_timestamp l;
                   sync_status := l_sync_status l;
                   sync_attempts := l_sync_attempts l;
                   last_sync_attempt := l_last_sync_attempt l;
                   next_retry := l_next_retry l;
                   webhook_response := l_webhook_response l;
                   created_at := l_created_at l |}).
Proof.
  exists {| card_reads := migrate_row <$> rows;
            sqlite_sequence := max_rowid (migrate_row <$> rows) |}.
  repeat split; simpl.
  - apply dom_fmap_L.
  - apply map_size_fmap.
  - rewrite lookup_fmap. by intros ?%fmap_None.
  - rewrite lookup_fmap. intros ->. done.
  - intros i l Hl. rewrite lookup_fmap, Hl. done.
Qed.

(** The row of the specification's example. *)
Example migration_example :
  ∃ db',
    migrate_database
      (Readable
         (Some (LegacyTable
                  {[ 1 := {| l_device_id := "dev-1"; l_card_value := "ABC123";
                             l_timestamp := 1000; l_sync_status := "pending";
                             l_sync_attempts := 2;
                             l_last_sync_attempt := Some 1100;
                             l_next_retry := Some 1220;
                             l_webhook_response := Some "HTTP 500: down";
                             l_created_at := 1000 |} ]}))
         false)
    = (Readable (Some (CurrentTable db')) false, [], Returns)
    ∧ map_to_list (card_reads db')
      = [(1, {| device_id := "dev-1"; card_id := "ABC123"; card_value := "";
                timestamp := 1000; sync_status := "pending";
                sync_attempts := 2; last_sync_attempt := Some 1100;
                next_retry := Some 1220;
                webhook_response := Some "HTTP 500: down";
                created_at := 1000 |})].
Proof. eexists. split; [reflexivity|]. vm_compute. reflexivity. Qed.

(** ** C6: the age window only filters *)

(** C6. For every window, [get_pending_syncs] returns the database it
    was given, and a row created before the start of the window is
    absent from the returned sequence while still stored, unchanged,
    under its key. *)
Theorem fetch_excludes_old_untouched clk max_age db i r
    (Hl : card_reads db !! i = Some r)
    (Hold : created_at r < sql_now clk - max_age * 86400) :
  (get_pending_syncs clk max_age db).1 = db
  ∧ (i ∉ fetched_ids clk max_age db)
  ∧ card_reads (get_pending_syncs clk max_age db).1 !! i = Some r.
Proof.
  split; [done|]. split; [|done].
  unfold fetched_ids. rewrite list_elem_of_fmap.
  intros (ps & Hi & Hin).
  apply elem_of_get_pending_syncs in Hin as (j & r' & Hl' & Hdue & ->).
  simpl in Hi. subst j. rewrite Hl in Hl'. injection Hl' as <-.
  unfold is_due, days_before in Hdue.
  apply andb_true_iff in Hdue as [_ Hdue].
  destruct (decide (valid_window (sql_now clk) max_age)); [|done].
  apply bool_decide_eq_true in Hdue. lia.
Qed.

Lemma fetch_excludes_old_untouched_witness :
  let db := (insert_card_read (clock_at 0 1000) "dev-1" "CARD-7" "hello"
                              empty_db).1 in
  let later := clock_at 0 (1000 + 8 * 86400) in
  (get_pending_syncs later 7 db).1 = db
  ∧ (1 ∉ fetched_ids later 7 db)
  ∧ card_reads (get_pending_syncs later 7 db).1 !! 1
    = Some {| device_id := "dev-1"; card_id := "CARD-7";
              card_value := "hello"; timestamp := 1000;
              sync_status := "pending"; sync_attempts := 0;
              last_sync_attempt := None; next_retry := Some 1000;
              webhook_response := None; created_at := 1000 |}.
Proof.
  intros db later.
  apply (fetch_excludes_old_untouched later 7 db 1).
  - reflexivity.
  - vm_compute. reflexivity.
Defined.

(** ** C7: no destination configured *)

Lemma send_webhook_no_endpoint rd net cid cval :
  no_endpoint rd →
  send_webhook rd net cid cval
  = ([], Returned false "No webhook URL configured").
Proof. unfold send_webhook. by intros [-> | ->]. Qed.

Lemma sync_one_no_endpoint rd mt ps db :
  no_endpoint rd →
  sync_one rd mt ps db
  = (update_sync_status (clock mt) (ps_id ps) "pending"
       (Some "No webhook URL configured") (Some (ps_attempts ps + 1)) db,
     []).
Proof.
  intros H. unfold sync_one. by rewrite send_webhook_no_endpoint.
Qed.

(** A pass over a batch leaves the rows outside the batch alone. *)
Lemma sync_one_other rd mt ps db i :
  ps_id ps ≠ i →
  card_reads (sync_one rd mt ps db).1 !! i = card_reads db !! i.
Proof.
  intros Hne. unfold sync_one.
  destruct (send_webhook rd (network mt) (ps_card_id ps) (ps_card_value ps))
    as [sent [[] response|e]]; cbn [fst]; by apply lookup_update_ne.
Qed.

Lemma sync_all_other rd moment_of batch i :
  i ∉ ps_id <$> batch →
  ∀ db, card_reads (sync_all rd moment_of batch db).1 !! i
        = card_reads db !! i.
Proof.
  unfold sync_all. intros Hnot db.
  change db with (db, @nil Request).1 at 2.
  generalize (db, @nil Request). clear db.
  induction batch as [|ps batch IH]; intros acc; [done|].
  rewrite fmap_cons in Hnot. apply not_elem_of_cons in Hnot as [Hne Hnot].
  simpl. rewrite IH by done.
  pose proof (sync_one_other rd (moment_of (ps_id ps)) ps acc.1 i
                ltac:(congruence)) as Hone.
  by destruct (sync_one rd (moment_of (ps_id ps)) ps acc.1).
Qed.

(** Without a destination, a pass is a sequence of recorded failures
    and makes no network call. *)
Local Abbreviation record_no_endpoint moment_of :=
  (λ (d : Database) (ps : PendingSync),
     update_sync_status (clock (moment_of (ps_id ps))) (ps_id ps) "pending"
       (Some "No webhook URL configured") (Some (ps_attempts ps + 1)) d).

Lemma sync_all_no_endpoint rd moment_of batch db :
  no_endpoint rd →
  sync_all rd moment_of batch db
  = (foldl (record_no_endpoint moment_of) db batch, []).
Proof.
  intros Hcfg. unfold sync_all.
  generalize (@nil Request). revert db.
  induction batch as [|ps batch IH]; intros db sent; [done|].
  simpl. rewrite sync_one_no_endpoint by done.
  rewrite app_nil_r. apply IH.
Qed.

Lemma record_all_other moment_of batch i :
  i ∉ ps_id <$> batch →
  ∀ db, card_reads (foldl (record_no_endpoint moment_of) db batch) !! i
        = card_reads db !! i.
Proof.
  induction batch as [|ps batch IH]; intros Hnot db; [done|].
  rewrite fmap_cons in Hnot. apply not_elem_of_cons in Hnot as [Hne Hnot].
  simpl foldl. rewrite IH by done. apply lookup_update_ne. congruence.
Qed.

Lemma record_all_member moment_of batch :
  NoDup (ps_id <$> batch) →
  ∀ db ps r,
    ps ∈ batch →
    card_reads db !! ps_id ps = Some r →
    card_reads (foldl (record_no_endpoint moment_of) db batch) !! ps_id ps
    = Some (mark_retry (clock (moment_of (ps_id ps))) "pending"
              (Some "No webhook URL configured") (ps_attempts ps + 1) r).
Proof.
  induction batch as [|q batch IH]; intros Hnd db ps r Hin Hl.
  - by apply not_elem_of_nil in Hin.
  - rewrite fmap_cons in Hnd. apply NoDup_cons in Hnd as [Hq Hnd].
    simpl foldl. apply elem_of_cons in Hin as [->|Hin].
    + rewrite record_all_other by done.
      by rewrite (lookup_update_retry _ _ _ _ _ _ r).
    + apply IH; [done..|].
      rewrite lookup_update_ne; [done|].
      intros Heq. apply Hq. rewrite Heq. by apply list_elem_of_fmap_2.
Qed.

(** C7. With no [webhook_url] configured (the key missing or empty),
    [send_webhook] returns the failure [(False, "No webhook URL
    configured")] whatever the network would do and makes no network
    call; a drain pass then makes no network call either and, for every
    event it fetched, records an ordinary failure: status [pending], the
    attempt count one higher, that reason as the stored response, and
    [next_retry] set by the backoff for the new count.  The update is the
    one [sync_one] performs for any failed delivery. *)
Theorem no_endpoint_is_delivery_failure rd fetch_clk moment_of db i r
    (Hcfg : no_endpoint rd)
    (Hl : card_reads db !! i = Some r)
    (Hdue : is_due (sql_now fetch_clk) (days_before (sql_now fetch_clk) 7) r
            = true) :
  let out := sync_pending_data rd fetch_clk moment_of db in
  let clk := clock (moment_of i) in
  (∀ net cid cval,
     send_webhook rd net cid cval
     = ([], Returned false "No webhook URL configured"))
  ∧ out.2 = []
  ∧ card_reads out.1 !! i
    = Some {| device_id := device_id r; card_id := card_id r;
              card_value := card_value r; timestamp := timestamp r;
              sync_status := "pending";
              sync_attempts := sync_attempts r + 1;
              last_sync_attempt := Some (sql_now clk);
              next_retry :=
                Some (py_now clk + backoff_minutes (sync_attempts r + 1) * 60);
              webhook_response := Some "No webhook URL configured";
              created_at := created_at r |}
  ∧ (∀ rd' mt ps d sent reason,
       send_webhook rd' (network mt) (ps_card_id ps) (ps_card_value ps)
       = (sent, Returned false reason) →
       (sync_one rd' mt ps d).1
       = update_sync_status (clock mt) (ps_id ps) "pending" (Some reason)
           (Some (ps_attempts ps + 1)) d).
Proof.
  intros out clk. split; [|split; [|split]].
  - intros. by apply send_webhook_no_endpoint.
  - subst out. unfold sync_pending_data. simpl.
    by rewrite sync_all_no_endpoint.
  - subst out. unfold sync_pending_data.
    destruct (get_pending_syncs fetch_clk 7 db) as [db0 batch] eqn:E.
    assert (Hdb : db0 = db) by (by injection E).
    assert (Hbatch : batch = (get_pending_syncs fetch_clk 7 db).2)
      by (by rewrite E).
    subst db0. rewrite sync_all_no_endpoint by done. cbn [fst].
    assert (Hin : to_pending (i, r) ∈ batch).
    { rewrite Hbatch. apply elem_of_get_pending_syncs. by exists i, r. }
    apply (record_all_member moment_of batch) with (db := db) (r := r)
      in Hin; [exact Hin| |exact Hl].
    rewrite Hbatch. apply get_pending_syncs_NoDup.
  - intros rd' mt ps d sent reason Hsend. unfold sync_one.
    by rewrite Hsend.
Qed.

Lemma no_endpoint_is_delivery_failure_witness :
  let rd := {| config := {| webhook_url := None; api_key := Some "k" |};
               reader_device_id := "dev-1" |} in
  let db := (insert_card_read (clock_at 0 1000) "dev-1" "CARD-7" "hello"
                              empty_db).1 in
  let out := sync_pending_data rd (clock_at 0 1030)
               (λ _, {| clock := clock_at 0 1031;
                        network := λ _, Response 200 "ok" |}) db in
  out.2 = []
  ∧ card_reads out.1 !! 1
    = Some {| device_id := "dev-1"; card_id := "CARD-7";
              card_value := "hello"; timestamp := 1000;
              sync_status := "pending"; sync_attempts := 1;
              last_sync_attempt := Some 1031; next_retry := Some 1091;
              webhook_response := Some "No webhook URL configured";
              created_at := 1000 |}.
Proof.
  intros rd db out.
  assert (Hcfg : no_endpoint rd) by (left; reflexivity).
  pose proof (no_endpoint_is_delivery_failure rd (clock_at 0 1030)
                (λ _, {| clock := clock_at 0 1031;
                         network := λ _, Response 200 "ok" |})
                db 1 _ Hcfg eq_refl eq_refl) as (_ & H2 & H3 & _).
  split; [exact H2|exact H3].
Defined.

(** ** C8: [next_retry] against the time of the write *)

(** C8 as stated fails on the success path: the [UPDATE] for a success
    does not assign [next_retry], so the value written at insert time
    stays, and it lies before the time of the write that made the event
    delivered. *)
Lemma next_retry_after_write_counterexample :
  ¬ (∀ db clk i resp r',
       card_reads (update_sync_status clk i "success" resp None db) !! i
       = Some r' →
       ∃ t, next_retry r' = Some t ∧ sql_now clk ≤ t).
Proof.
  intros H.
  destruct (H (insert_card_read (clock_at 0 1000) "dev-1" "CARD-7" "hello"
                                empty_db).1
              (clock_at 0 1030) 1 (Some "ok") _ eq_refl) as (t & Ht & Hle).
  vm_compute in Ht. injection Ht as <-.
  vm_compute in Hle. by apply Hle.
Qed.

(** C8, amended. After an insert, [next_retry] equals the time of that
    write.  A recorded success does not assign [next_retry]: the row keeps
    the value it had. *)
Theorem next_retry_after_write :
  (∀ clk dev cid cval db,
     next_retry <$>
       (card_reads (insert_card_read clk dev cid cval db).1
          !! (insert_card_read clk dev cid cval db).2)
     = Some (Some (sql_now clk)))
  ∧ (∀ clk i resp att db r,
       card_reads db !! i = Some r →
       next_retry <$>
         (card_reads (update_sync_status clk i "success" resp att db) !! i)
       = Some (next_retry r)).
Proof.
  split.
  - intros clk dev cid cval db. simpl. by rewrite lookup_insert_eq.
  - intros clk i resp att db r Hl.
    unfold update_sync_status. rewrite decide_True by done. simpl.
    by rewrite lookup_alter_eq, Hl.
Qed.

Lemma next_retry_after_write_witness :
  let db := (insert_card_read (clock_at 0 1000) "dev-1" "CARD-7" "hello"
                              empty_db).1 in
  next_retry <$> (card_reads db !! 1) = Some (Some 1000)
  ∧ next_retry <$>
      (card_reads (update_sync_status (clock_at 3600 1030) 1 "success"
                     (Some "ok") None db) !! 1)
    = Some (Some 1000).
Proof.
  intros db. split.
  - exact (proj1 next_retry_after_write (clock_at 0 1000) "dev-1" "CARD-7"
                 "hello" empty_db).
  - exact (proj2 next_retry_after_write (clock_at 3600 1030) 1 (Some "ok")
                 None db _ eq_refl).
Defined.

(** ** C9: a layout that cannot be determined *)

Lemma missing_column_Some columns c :
  missing_column columns = Some c → c ∈ legacy_columns ∧ c ∉ columns.
Proof.
  unfold missing_column. intros H.
  assert (Hin : c ∈ filter (λ c, c ∉ columns) legacy_columns).
  { destruct (filter _ legacy_columns) as [|x l]; [done|].
    injection H as ->. by left. }
  by apply list_elem_of_filter in Hin as [? ?].
Qed.


(** [main] on a readable file: the probe decides, and an exception of the
    migration becomes exit status 1. *)
Lemma main_readable t n :
  main (Readable t n)
  = if bool_decide ("card_id" ∈ table_info t)
    then (Readable t n, [], Returns)
    else match run_migration t n with
         | (d2, Raises e) =>
             (d2, ["Error during migration: " +:+ e;
                   "Migration failed: " +:+ e], SysExit 1)
         | (d2, o) => (d2, [], o)
         end.
Proof.
  unfold main, migrate_database, check_schema_version.
  destruct (bool_decide ("card_id" ∈ table_info t)); [done|].
  cbn beta iota. rewrite decide_False, decide_True by done.
  rewrite decide_False, decide_False by done.
  by destruct (run_migration t n) as [d2 [ | e | c]].
Qed.



(** ** C10: a missing [next_retry] counts as due *)

(** C10 as stated fails for a window that reaches back beyond the dates
    SQLite handles: the cutoff is [NULL] there and the fetch is empty,
    although the row's [created_at] lies within the window. *)
Lemma null_next_retry_is_due_counterexample :
  ¬ (∀ clk max_age db i r,
       0 ≤ max_age →
       card_reads db !! i = Some r →
       sync_status r = "pending" →
       next_retry r = None →
       sql_now clk - max_age * 86400 ≤ created_at r →
       i ∈ fetched_ids clk max_age db).
Proof.
  intros H.
  set (r := {| device_id := "dev-1"; card_id := "ABC123"; card_value := "";
               timestamp := 1000; sync_status := "pending";
               sync_attempts := 0; last_sync_attempt := None;
               next_retry := None; webhook_response := None;
               created_at := 1000 |}).
  specialize (H (clock_at 0 1700000000) 2470000
                {| card_reads := {[ 4 := r ]}; sqlite_sequence := 4 |} 4 r).
  assert (Hin : 4 ∈ fetched_ids (clock_at 0 1700000000) 2470000
                      {| card_reads := {[ 4 := r ]}; sqlite_sequence := 4 |}).
  { apply H; try done; vm_compute; discriminate. }
  vm_compute in Hin. by apply elem_of_nil in Hin.
Qed.

(** C10, amended. Every [pending] row whose [next_retry] is [NULL] and
    whose [created_at] lies within the window is in the sequence
    [get_pending_syncs] returns, for every window that reaches back to a
    date SQLite handles.  The migration carries a [NULL] [next_retry] of
    a legacy row over as it is, while the row written by
    [insert_card_read] always has a [next_retry]. *)
Theorem null_next_retry_is_due clk max_age db i r
    (Hvalid : valid_window (sql_now clk) max_age)
    (Hl : card_reads db !! i = Some r)
    (Hpending : sync_status r = "pending")
    (Hnull : next_retry r = None)
    (Hwindow : sql_now clk - max_age * 86400 ≤ created_at r) :
  to_pending (i, r) ∈ (get_pending_syncs clk max_age db).2
  ∧ (∀ rows j l,
       rows !! j = Some l → l_next_retry l = None →
       ∃ db',
         (migrate_database (Readable (Some (LegacyTable rows)) false)).1.1
         = Readable (Some (CurrentTable db')) false
         ∧ next_retry <$> (card_reads db' !! j) = Some None)
  ∧ (∀ clk0 dev cid cval db0,
       next_retry <$>
         (card_reads (insert_card_read clk0 dev cid cval db0).1
            !! (insert_card_read clk0 dev cid cval db0).2)
       ≠ Some None).
Proof.
  split; [|split].
  - apply elem_of_get_pending_syncs. exists i, r.
    split; [done|]. split; [|done].
    rewrite days_before_valid by done.
    unfold is_due. rewrite Hnull, Hpending.
    rewrite !bool_decide_eq_true_2; [done|lia|done].
  - intros rows j l Hj Hn. eexists. split; [reflexivity|].
    simpl. rewrite lookup_fmap, Hj. simpl. by rewrite Hn.
  - intros clk0 dev cid cval db0. simpl. by rewrite lookup_insert_eq.
Qed.

Lemma null_next_retry_is_due_witness :
  let legacy : gmap Z LegacyRow :=
    {[ 4 := {| l_device_id := "dev-1"; l_card_value := "ABC123";
               l_timestamp := 1000; l_sync_status := "pending";
               l_sync_attempts := 0; l_last_sync_attempt := None;
               l_next_retry := None; l_webhook_response := None;
               l_created_at := 1000 |} ]} in
  let db := {| card_reads := migrate_row <$> legacy;
               sqlite_sequence := 4 |} in
  {| ps_id := 4; ps_device_id := "dev-1"; ps_card_id := "ABC123";
     ps_card_value := ""; ps_timestamp := 1000; ps_attempts := 0;
     ps_last_attempt := None |}
  ∈ (get_pending_syncs (clock_at 0 2000) 7 db).2.
Proof.
  intros legacy db.
  refine (proj1 (null_next_retry_is_due (clock_at 0 2000) 7 db 4
                   (migrate_row
                      {| l_device_id := "dev-1"; l_card_value := "ABC123";
                         l_timestamp := 1000; l_sync_status := "pending";
                         l_sync_attempts := 0; l_last_sync_attempt := None;
                         l_next_retry := None; l_webhook_response := None;
                         l_created_at := 1000 |})
                   _ _ _ _ _)).
  - vm_compute. intuition discriminate.
  - vm_compute. reflexivity.
  - reflexivity.
  - reflexivity.
  - vm_compute. discriminate.
Defined.

(** * Further properties of the store *)

Import Capture ConfigFile Admin Observability Invariants.

Lemma is_due_iff now n r :
  is_due now (days_before now n) r = true ↔
  sync_status r = "pending"
  ∧ (next_retry r = None ∨ ∃ t, next_retry r = Some t ∧ t ≤ now)
  ∧ valid_window now n
  ∧ now - n * 86400 ≤ created_at r.
Proof.
  unfold is_due, days_before. split.
  - intros H. apply andb_true_iff in H as [H H3].
    apply andb_true_iff in H as [H1 H2].
    apply bool_decide_eq_true in H1.
    destruct (decide (valid_window now n)); [|done].
    apply bool_decide_eq_true in H3.
    split_and!; try done.
    destruct (next_retry r) as [t|]; [|by left].
    right. exists t. split; [done|]. by apply bool_decide_eq_true in H2.
  - intros (H1 & H2 & H3 & H4).
    rewrite decide_True by done.
    rewrite (bool_decide_eq_true_2 _ H1), (bool_decide_eq_true_2 _ H4).
    destruct H2 as [->|(t & -> & Ht)]; [done|].
    by rewrite (bool_decide_eq_true_2 _ Ht).
Qed.

Lemma created_le_total : Total created_le.
Proof. intros a b. unfold created_le. lia. Qed.

Lemma created_le_trans : Transitive created_le.
Proof. intros a b c. unfold created_le. lia. Qed.

Lemma StronglySorted_lookup_le {A} (R : relation A) (l : list A) a b x y :
  StronglySorted R l →
  l !! a = Some x → l !! b = Some y → (a < b)%nat → R x y.
Proof.
  intros Hs. revert a b x y.
  induction Hs as [|z l Hs IH Hall]; intros a b x y Ha Hb Hlt.
  - by rewrite lookup_nil in Ha.
  - destruct b as [|b]; [lia|]. simpl in Hb.
    destruct a as [|a]; simpl in Ha.
    + injection Ha as ->.
      rewrite Forall_forall in Hall. apply Hall.
      eapply list_elem_of_lookup_2. exact Hb.
    + apply (IH a b); [done..|lia].
Qed.

(** X1. [get_pending_syncs] returns exactly the rows that are pending, whose
    [next_retry] is missing or has passed, and that were created within
    the window, provided the window reaches back to a date SQLite
    handles (for any other window it returns nothing); each of them
    once; the older before the newer. *)
Theorem get_pending_syncs_exact_sorted clk n db :
  let batch := (get_pending_syncs clk n db).2 in
  (∀ ps, ps ∈ batch ↔
     ∃ i r, card_reads db !! i = Some r ∧ ps = to_pending (i, r)
            ∧ sync_status r = "pending"
            ∧ (next_retry r = None
               ∨ ∃ t, next_retry r = Some t ∧ t ≤ sql_now clk)
            ∧ valid_window (sql_now clk) n
            ∧ sql_now clk - n * 86400 ≤ created_at r)
  ∧ (¬ valid_window (sql_now clk) n → batch = [])
  ∧ NoDup (ps_id <$> batch)
  ∧ (∀ a b pa pb ra rb,
       batch !! a = Some pa → batch !! b = Some pb → (a < b)%nat →
       card_reads db !! ps_id pa = Some ra →
       card_reads db !! ps_id pb = Some rb →
       created_at ra ≤ created_at rb).
Proof.
  intros batch. split; [|split; [|split]].
  - intros ps. subst batch. rewrite elem_of_get_pending_syncs.
    split.
    + intros (i & r & Hl & Hdue & ->). exists i, r.
      apply is_due_iff in Hdue as (H1 & H2 & H3 & H4). by split_and!.
    + intros (i & r & Hl & -> & H). exists i, r.
      split; [done|]. split; [|done]. by apply is_due_iff.
  - intros Hno. destruct batch as [|ps l] eqn:E; [done|].
    assert (Hin : ps ∈ batch) by (rewrite E; by left).
    subst batch. apply elem_of_get_pending_syncs in Hin
      as (i & r & _ & Hdue & _).
    by apply is_due_iff in Hdue as (_ & _ & ? & _).
  - apply get_pending_syncs_NoDup.
  - intros a b pa pb ra rb Ha Hb Hlt Hra Hrb.
    subst batch. unfold get_pending_syncs in Ha, Hb. simpl in Ha, Hb.
    rewrite list_lookup_fmap in Ha, Hb.
    apply fmap_Some in Ha as (xa & Ha & ->).
    apply fmap_Some in Hb as (xb & Hb & ->).
    assert (Hrow : ∀ k (x : Z * Row),
              merge_sort created_le
                (filter (λ ir : Z * Row,
                           is_due (sql_now clk)
                                  (days_before (sql_now clk) n) ir.2)
                        (map_to_list (card_reads db))) !! k = Some x →
              card_reads db !! x.1 = Some x.2).
    { intros k [i r] Hk. apply list_elem_of_lookup_2 in Hk.
      rewrite merge_sort_Permutation in Hk.
      apply list_elem_of_filter in Hk as [_ Hk].
      by apply elem_of_map_to_list in Hk. }
    pose proof (Hrow _ _ Ha) as Hxa. pose proof (Hrow _ _ Hb) as Hxb.
    simpl in Hra, Hrb. rewrite Hxa in Hra. rewrite Hxb in Hrb.
    injection Hra as <-. injection Hrb as <-.
    eapply (StronglySorted_lookup_le created_le); [|exact Ha|exact Hb|exact Hlt].
    apply (@StronglySorted_merge_sort _ created_le _
             created_le_trans created_le_total).
Qed.

(** ** What [update_sync_status] leaves alone *)

Lemma alter_absent (f : Row → Row) (m : gmap Z Row) i :
  m !! i = None → alter f i m = m.
Proof.
  intros H. apply map_eq. intros j. rewrite lookup_alter.
  destruct (decide (i = j)) as [->|]; [by rewrite H|done].
Qed.

Lemma update_missing_row_unchanged_aux clk i status resp att db
    (Hmiss : card_reads db !! i = None) :
  update_sync_status clk i status resp att db = db.
Proof.
  unfold update_sync_status, with_rows.
  destruct db as [m s]. simpl in *.
  destruct (decide (status = "success")).
  - by rewrite alter_absent.
  - destruct att; [by rewrite alter_absent|]. by rewrite Hmiss.
Qed.

(** X2. Recording an outcome for a key the table does not hold changes
    nothing, whatever the status, response and attempt count. *)
Theorem update_missing_row_unchanged clk i status resp att db
    (Hmiss : card_reads db !! i = None) :
  update_sync_status clk i status resp att db = db.
Proof. by apply update_missing_row_unchanged_aux. Qed.

Lemma update_missing_row_unchanged_witness :
  update_sync_status (clock_at 0 1000) 5 "pending" (Some "down") None
    (insert_card_read (clock_at 0 900) "dev-1" "CARD-7" "hello" empty_db).1
  = (insert_card_read (clock_at 0 900) "dev-1" "CARD-7" "hello" empty_db).1.
Proof.
  apply update_missing_row_unchanged. reflexivity.
Defined.

Lemma same_event_refl r : same_event r r.
Proof. by repeat split. Qed.

Lemma same_event_trans r1 r2 r3 :
  same_event r1 r2 → same_event r2 r3 → same_event r1 r3.
Proof. unfold same_event. intros (?&?&?&?&?) (?&?&?&?&?). split_and!; congruence. Qed.

(** One call of [update_sync_status] keeps every row, keeps every row's
    event columns, and does not touch the key counter. *)
Lemma update_keeps_event clk j status resp att db i r :
  card_reads db !! i = Some r →
  ∃ r', card_reads (update_sync_status clk j status resp att db) !! i
        = Some r'
        ∧ same_event r r'.
Proof.
  intros Hl. destruct (decide (j = i)) as [->|Hne].
  - unfold update_sync_status.
    destruct (decide (status = "success")); simpl.
    + rewrite lookup_alter_eq, Hl. eexists. split; [done|]. by repeat split.
    + destruct att; simpl.
      * rewrite lookup_alter_eq, Hl. eexists. split; [done|]. by repeat split.
      * rewrite Hl. simpl. rewrite lookup_alter_eq, Hl.
        eexists. split; [done|]. by repeat split.
  - rewrite lookup_update_ne by done. exists r. split; [done|].
    apply same_event_refl.
Qed.

Lemma update_keeps_sequence clk j status resp att db :
  sqlite_sequence (update_sync_status clk j status resp att db)
  = sqlite_sequence db.
Proof.
  unfold update_sync_status.
  destruct (decide (status = "success")); [done|].
  destruct att; [done|]. by destruct (card_reads db !! j).
Qed.

Lemma update_keeps_absent clk j status resp att db i :
  card_reads db !! i = None →
  card_reads (update_sync_status clk j status resp att db) !! i = None.
Proof.
  intros Hl. destruct (decide (j = i)) as [->|Hne].
  - by rewrite update_missing_row_unchanged_aux.
  - by rewrite lookup_update_ne.
Qed.

Lemma sync_one_keeps_event rd mt ps db i r :
  card_reads db !! i = Some r →
  ∃ r', card_reads (sync_one rd mt ps db).1 !! i = Some r' ∧ same_event r r'.
Proof.
  intros Hl. unfold sync_one.
  destruct (send_webhook rd (network mt) (ps_card_id ps) (ps_card_value ps))
    as [sent [[] response|e]]; cbn [fst]; by apply update_keeps_event.
Qed.

Lemma sync_one_keeps_sequence rd mt ps db :
  sqlite_sequence (sync_one rd mt ps db).1 = sqlite_sequence db.
Proof.
  unfold sync_one.
  destruct (send_webhook rd (network mt) (ps_card_id ps) (ps_card_value ps))
    as [sent [[] response|e]]; cbn [fst]; apply update_keeps_sequence.
Qed.

Lemma sync_one_keeps_absent rd mt ps db i :
  card_reads db !! i = None →
  card_reads (sync_one rd mt ps db).1 !! i = None.
Proof.
  intros Hl. unfold sync_one.
  destruct (send_webhook rd (network mt) (ps_card_id ps) (ps_card_value ps))
    as [sent [[] response|e]]; cbn [fst]; by apply update_keeps_absent.
Qed.

(** The fold of [sync_all], one step. *)
Lemma sync_all_cons rd moment_of ps batch (acc : Database * list Request) :
  foldl (λ acc ps,
           let '(db', sent) := sync_one rd (moment_of (ps_id ps)) ps acc.1 in
           (db', acc.2 ++ sent)) acc (ps :: batch)
  = foldl (λ acc ps,
             let '(db', sent) := sync_one rd (moment_of (ps_id ps)) ps acc.1 in
             (db', acc.2 ++ sent))
          ((sync_one rd (moment_of (ps_id ps)) ps acc.1).1,
           acc.2 ++ (sync_one rd (moment_of (ps_id ps)) ps acc.1).2)
          batch.
Proof. simpl. by destruct (sync_one rd (moment_of (ps_id ps)) ps acc.1). Qed.

(** A property of databases that one processed event preserves is
    preserved by a whole batch. *)
Lemma sync_all_preserves (P : Database → Prop) rd moment_of :
  (∀ mt ps db, P db → P (sync_one rd mt ps db).1) →
  ∀ batch (acc : Database * list Request),
    P acc.1 →
    P (foldl (λ acc ps,
                let '(db', sent) :=
                  sync_one rd (moment_of (ps_id ps)) ps acc.1 in
                (db', acc.2 ++ sent)) acc batch).1.
Proof.
  intros Hone. induction batch as [|ps batch IH]; intros acc HP; [done|].
  rewrite sync_all_cons. apply IH. simpl. by apply Hone.
Qed.

Lemma drain_keeps_event rd fetch_clk moment_of db i r :
  card_reads db !! i = Some r →
  ∃ r', card_reads (sync_pending_data rd fetch_clk moment_of db).1 !! i
        = Some r'
        ∧ same_event r r'.
Proof.
  intros Hl. unfold sync_pending_data, sync_all. simpl.
  apply (sync_all_preserves
           (λ d, ∃ r', card_reads d !! i = Some r' ∧ same_event r r')).
  - intros mt ps d (r1 & H1 & He1).
    destruct (sync_one_keeps_event rd mt ps d i r1 H1) as (r2 & H2 & He2).
    exists r2. split; [done|]. by eapply same_event_trans.
  - exists r. split; [done|]. apply same_event_refl.
Qed.

Lemma drain_keeps_sequence rd fetch_clk moment_of db :
  sqlite_sequence (sync_pending_data rd fetch_clk moment_of db).1
  = sqlite_sequence db.
Proof.
  unfold sync_pending_data, sync_all. simpl.
  apply (sync_all_preserves (λ d, sqlite_sequence d = sqlite_sequence db));
    [|done].
  intros mt ps d Hd. by rewrite sync_one_keeps_sequence.
Qed.

Lemma drain_keeps_absent rd fetch_clk moment_of db i :
  card_reads db !! i = None →
  card_reads (sync_pending_data rd fetch_clk moment_of db).1 !! i = None.
Proof.
  intros Hl. unfold sync_pending_data, sync_all. simpl.
  apply (sync_all_preserves (λ d, card_reads d !! i = None)); [|done].
  intros mt ps d Hd. by apply sync_one_keeps_absent.
Qed.

Lemma step_keeps_event db op i r :
  card_reads db !! i = Some r →
  ∃ r', card_reads (step db op) !! i = Some r' ∧ same_event r r'.
Proof.
  intros Hl. destruct op; simpl.
  - exists r. split; [|apply same_event_refl].
    rewrite lookup_insert_ne; [done|].
    intros Heq.
    pose proof (insert_card_read_fresh clk dev cid cval db) as Hf.
    simpl in Hf. rewrite Heq in Hf. congruence.
  - exists r. split; [done|apply same_event_refl].
  - by apply update_keeps_event.
  - by apply drain_keeps_event.
Qed.

(** X3. No history of inserts, fetches, recorded outcomes and drain passes
    deletes an event or changes its device, card id, card value or
    either of its insert timestamps. *)
Theorem history_keeps_events ops db i r
    (Hl : card_reads db !! i = Some r) :
  ∃ r', card_reads (run ops db) !! i = Some r' ∧ same_event r r'.
Proof.
  unfold run. revert db r Hl.
  induction ops as [|op ops IH]; intros db r Hl.
  - exists r. split; [done|apply same_event_refl].
  - simpl. destruct (step_keeps_event db op i r Hl) as (r1 & H1 & He1).
    destruct (IH _ _ H1) as (r2 & H2 & He2).
    exists r2. split; [done|]. by eapply same_event_trans.
Qed.

Lemma history_keeps_events_witness :
  ∃ r', card_reads
          (run [RecordOutcome (clock_at 0 1010) 1 "pending" (Some "down")
                              (Some 4);
                Append (clock_at 0 1020) "dev-1" "CARD-8" "";
                RecordOutcome (clock_at 0 1030) 1 "success" (Some "ok") None]
               (insert_card_read (clock_at 0 1000) "dev-1" "CARD-7" "hello"
                                 empty_db).1) !! 1 = Some r'
        ∧ same_event
            {| device_id := "dev-1"; card_id := "CARD-7";
               card_value := "hello"; timestamp := 1000;
               sync_status := "pending"; sync_attempts := 0;
               last_sync_attempt := None; next_retry := Some 1000;
               webhook_response := None; created_at := 1000 |} r'.
Proof.
  apply history_keeps_events. reflexivity.
Defined.

(** * Further properties of the drain pass *)

Lemma sync_all_other_from rd moment_of batch i :
  i ∉ ps_id <$> batch →
  ∀ acc : Database * list Request,
    card_reads
      (foldl (λ acc ps,
                let '(db', sent) :=
                  sync_one rd (moment_of (ps_id ps)) ps acc.1 in
                (db', acc.2 ++ sent)) acc batch).1 !! i
    = card_reads acc.1 !! i.
Proof.
  induction batch as [|ps batch IH]; intros Hnot acc; [done|].
  rewrite fmap_cons in Hnot. apply not_elem_of_cons in Hnot as [Hne Hnot].
  rewrite sync_all_cons, IH by done. simpl.
  apply sync_one_other. congruence.
Qed.

(** What [sync_one] writes under the key of its tuple depends on the
    database only through the row under that key. *)
Lemma sync_one_row rd mt ps d1 d2 :
  card_reads d1 !! ps_id ps = card_reads d2 !! ps_id ps →
  card_reads (sync_one rd mt ps d1).1 !! ps_id ps
  = card_reads (sync_one rd mt ps d2).1 !! ps_id ps.
Proof.
  intros Heq. unfold sync_one.
  destruct (send_webhook rd (network mt) (ps_card_id ps) (ps_card_value ps))
    as [sent [[] response|e]]; simpl;
    by rewrite !lookup_alter_eq, Heq.
Qed.

(** Within a batch of pairwise distinct keys every event is processed
    as if it were alone. *)
Lemma sync_all_member rd moment_of batch :
  NoDup (ps_id <$> batch) →
  ∀ (acc : Database * list Request) ps,
    ps ∈ batch →
    card_reads
      (foldl (λ acc ps,
                let '(db', sent) :=
                  sync_one rd (moment_of (ps_id ps)) ps acc.1 in
                (db', acc.2 ++ sent)) acc batch).1 !! ps_id ps
    = card_reads (sync_one rd (moment_of (ps_id ps)) ps acc.1).1 !! ps_id ps.
Proof.
  induction batch as [|q batch IH]; intros Hnd acc ps Hin.
  - by apply not_elem_of_nil in Hin.
  - rewrite fmap_cons in Hnd. apply NoDup_cons in Hnd as [Hq Hnd].
    rewrite sync_all_cons.
    apply elem_of_cons in Hin as [->|Hin].
    + by rewrite sync_all_other_from.
    + rewrite IH by done. simpl. apply sync_one_row.
      apply sync_one_other.
      intros Heq. apply Hq. rewrite Heq. by apply list_elem_of_fmap_2.
Qed.

Lemma drain_pass_outcome_aux rd fetch_clk moment_of db i r
    (Hl : card_reads db !! i = Some r)
    (Hdue : is_due (sql_now fetch_clk) (days_before (sql_now fetch_clk) 7) r
            = true) :
  let clk := clock (moment_of i) in
  card_reads (sync_pending_data rd fetch_clk moment_of db).1 !! i
  = Some
      match (send_webhook rd (network (moment_of i))
                          (card_id r) (card_value r)).2 with
      | Returned true response =>
          mark_success clk "success" (Some response) r
      | Returned false response =>
          mark_retry clk "pending" (Some response) (sync_attempts r + 1) r
      | Raised e =>
          mark_retry clk "pending" (Some e) (sync_attempts r + 1) r
      end.
Proof.
  intros clk. unfold sync_pending_data, sync_all.
  destruct (get_pending_syncs fetch_clk 7 db) as [db0 batch] eqn:E.
  assert (Hdb : db0 = db) by (by injection E).
  assert (Hbatch : batch = (get_pending_syncs fetch_clk 7 db).2)
    by (by rewrite E).
  subst db0.
  assert (Hin : to_pending (i, r) ∈ batch).
  { rewrite Hbatch. apply elem_of_get_pending_syncs. by exists i, r. }
  assert (Hnd : NoDup (ps_id <$> batch))
    by (rewrite Hbatch; apply get_pending_syncs_NoDup).
  pose proof (sync_all_member rd moment_of batch Hnd (db, []) _ Hin) as H.
  cbn [ps_id to_pending fst] in H. rewrite H. clear H.
  unfold sync_one. cbn [ps_card_id ps_card_value ps_attempts ps_id to_pending
                          fst snd].
  destruct (send_webhook rd (network (moment_of i)) (card_id r) (card_value r))
    as [sent [[] response|e]]; cbn [fst snd].
  - unfold update_sync_status. rewrite decide_True by done. simpl.
    by rewrite lookup_alter_eq, Hl.
  - by rewrite (lookup_update_retry _ _ _ _ _ _ r).
  - by rewrite (lookup_update_retry _ _ _ _ _ _ r).
Qed.

(** X4. The outcome of a drain pass for an event it fetched: delivered, with
    the response body stored, when the endpoint answered 200; otherwise
    still pending, with the attempt count of the fetch plus one, the
    failure text stored and a new [next_retry]. *)
Theorem drain_pass_outcome rd fetch_clk moment_of db i r
    (Hl : card_reads db !! i = Some r)
    (Hdue : is_due (sql_now fetch_clk) (days_before (sql_now fetch_clk) 7) r
            = true) :
  let clk := clock (moment_of i) in
  card_reads (sync_pending_data rd fetch_clk moment_of db).1 !! i
  = Some
      match (send_webhook rd (network (moment_of i))
                          (card_id r) (card_value r)).2 with
      | Returned true response =>
          mark_success clk "success" (Some response) r
      | Returned false response =>
          mark_retry clk "pending" (Some response) (sync_attempts r + 1) r
      | Raised e =>
          mark_retry clk "pending" (Some e) (sync_attempts r + 1) r
      end.
Proof. by apply drain_pass_outcome_aux. Qed.

Lemma drain_pass_outcome_witness :
  let rd := {| config := {| webhook_url := Some "http://hook";
                            api_key := None |};
               reader_device_id := "dev-1" |} in
  let db := (insert_card_read (clock_at 0 1000) "dev-1" "CARD-7" "hello"
                              empty_db).1 in
  card_reads
    (sync_pending_data rd (clock_at 0 1030)
       (λ _, {| clock := clock_at 0 1031;
                network := λ _, Response 503 "busy" |}) db).1 !! 1
  = Some {| device_id := "dev-1"; card_id := "CARD-7";
            card_value := "hello"; timestamp := 1000;
            sync_status := "pending"; sync_attempts := 1;
            last_sync_attempt := Some 1031; next_retry := Some 1091;
            webhook_response := Some "HTTP 503: busy";
            created_at := 1000 |}.
Proof.
  intros rd db.
  exact (drain_pass_outcome rd (clock_at 0 1030)
           (λ _, {| clock := clock_at 0 1031;
                    network := λ _, Response 503 "busy" |})
           db 1 _ eq_refl eq_refl).
Defined.

Lemma drain_pass_frame_aux rd fetch_clk moment_of db i
    (Hout : i ∉ fetched_ids fetch_clk 7 db) :
  let db' := (sync_pending_data rd fetch_clk moment_of db).1 in
  card_reads db' !! i = card_reads db !! i
  ∧ dom (card_reads db') = dom (card_reads db)
  ∧ sqlite_sequence db' = sqlite_sequence db.
Proof.
  intros db'. split; [|split].
  - subst db'. unfold sync_pending_data. simpl.
    by apply sync_all_other.
  - apply set_eq. intros k. rewrite !elem_of_dom. split.
    + intros [r' Hr']. destruct (card_reads db !! k) eqn:E; [eauto|].
      apply (drain_keeps_absent rd fetch_clk moment_of) in E.
      subst db'. congruence.
    + intros [r Hr].
      destruct (drain_keeps_event rd fetch_clk moment_of db k r Hr)
        as (r' & Hr' & _). eauto.
  - apply drain_keeps_sequence.
Qed.

(** X5. A drain pass changes no row outside the batch it fetched, adds and
    removes no key, and leaves the key counter alone. *)
Theorem drain_pass_frame rd fetch_clk moment_of db i
    (Hout : i ∉ fetched_ids fetch_clk 7 db) :
  let db' := (sync_pending_data rd fetch_clk moment_of db).1 in
  card_reads db' !! i = card_reads db !! i
  ∧ dom (card_reads db') = dom (card_reads db)
  ∧ sqlite_sequence db' = sqlite_sequence db.
Proof. by apply drain_pass_frame_aux. Qed.

Lemma drain_pass_frame_witness :
  let rd := {| config := {| webhook_url := Some "http://hook";
                            api_key := None |};
               reader_device_id := "dev-1" |} in
  let db := update_sync_status (clock_at 0 1010) 1 "pending" (Some "down")
              None
              (insert_card_read (clock_at 0 1000) "dev-1" "CARD-7" "hello"
                                empty_db).1 in
  card_reads
    (sync_pending_data rd (clock_at 0 1030)
       (λ _, {| clock := clock_at 0 1031;
                network := λ _, Response 200 "ok" |}) db).1 !! 1
  = card_reads db !! 1.
Proof.
  intros rd db.
  refine (proj1 (drain_pass_frame rd (clock_at 0 1030) _ db 1 _)).
  vm_compute. intros H. by apply elem_of_nil in H.
Defined.

Lemma sync_one_sent rd mt ps db :
  (sync_one rd mt ps db).2
  = (send_webhook rd (network mt) (ps_card_id ps) (ps_card_value ps)).1.
Proof.
  unfold sync_one.
  by destruct (send_webhook rd (network mt) (ps_card_id ps) (ps_card_value ps))
    as [sent [[] response|e]].
Qed.

Lemma sync_all_sent rd moment_of batch :
  ∀ acc : Database * list Request,
    (foldl (λ acc ps,
              let '(db', sent) :=
                sync_one rd (moment_of (ps_id ps)) ps acc.1 in
              (db', acc.2 ++ sent)) acc batch).2
    = acc.2
      ++ (batch ≫= λ ps,
            (send_webhook rd (network (moment_of (ps_id ps)))
                          (ps_card_id ps) (ps_card_value ps)).1).
Proof.
  induction batch as [|ps batch IH]; intros acc.
  - simpl. by rewrite app_nil_r.
  - rewrite sync_all_cons, IH. cbn [snd]. rewrite sync_one_sent.
    rewrite bind_cons. by rewrite app_assoc.
Qed.

(** X6. With a destination configured, a drain pass makes exactly one call
    per fetched event, in the order of the fetch.  Each call goes to the
    configured URL and carries the card id and value of the event, the
    device id of the running reader (the one stored with the event is not
    used), the content type, and the API key when one is configured. *)
Theorem drain_pass_requests rd fetch_clk moment_of db url
    (Hurl : webhook_url (config rd) = Some url)
    (Hne : url ≠ "") :
  (sync_pending_data rd fetch_clk moment_of db).2
  = (λ ps, {| req_url := url;
              req_device_id := reader_device_id rd;
              req_card_id := ps_card_id ps;
              req_card_value := ps_card_value ps;
              req_headers :=
                ("Content-Type", "application/json") ::
                match api_key (config rd) with
                | None | Some "" => []
                | Some key => [("x-api-key", key)]
                end |})
    <$> (get_pending_syncs fetch_clk 7 db).2.
Proof.
  unfold sync_pending_data, sync_all.
  destruct (get_pending_syncs fetch_clk 7 db) as [db0 batch]. cbn [snd].
  rewrite sync_all_sent. cbn [snd app].
  induction batch as [|ps batch IH]; [done|].
  rewrite bind_cons, fmap_cons, IH. f_equal.
  unfold send_webhook. rewrite Hurl.
  destruct url as [|c u]; [done|]. reflexivity.
Qed.

Lemma drain_pass_requests_witness :
  let rd := {| config := {| webhook_url := Some "http://hook";
                            api_key := Some "s3cret" |};
               reader_device_id := "dev-2" |} in
  let db := (insert_card_read (clock_at 0 1000) "dev-1" "CARD-7" "hello"
                              empty_db).1 in
  (sync_pending_data rd (clock_at 0 1030)
     (λ _, {| clock := clock_at 0 1031;
              network := λ _, Response 200 "ok" |}) db).2
  = [ {| req_url := "http://hook"; req_device_id := "dev-2";
         req_card_id := "CARD-7"; req_card_value := "hello";
         req_headers := [("Content-Type", "application/json");
                         ("x-api-key", "s3cret")] |} ].
Proof.
  intros rd db.
  refine (drain_pass_requests rd (clock_at 0 1030) _ db "http://hook"
            eq_refl _).
  discriminate.
Defined.

(** ** The attempt count never decreases *)

Lemma update_count_from_row clk j status resp att db i r :
  (status ≠ "success" → att = None) →
  card_reads db !! i = Some r →
  ∃ r', card_reads (update_sync_status clk j status resp att db) !! i
        = Some r'
        ∧ sync_attempts r ≤ sync_attempts r'.
Proof.
  intros Hatt Hl. destruct (decide (j = i)) as [->|Hne].
  - unfold update_sync_status.
    destruct (decide (status = "success")) as [Hs|Hs]; simpl.
    + rewrite lookup_alter_eq, Hl. eexists. split; [done|]. simpl. lia.
    + rewrite (Hatt Hs), Hl. simpl. rewrite lookup_alter_eq, Hl.
      eexists. split; [done|]. simpl. lia.
  - rewrite lookup_update_ne by done. exists r. split; [done|lia].
Qed.

Lemma drain_count rd fetch_clk moment_of db i r :
  card_reads db !! i = Some r →
  ∃ r', card_reads (sync_pending_data rd fetch_clk moment_of db).1 !! i
        = Some r'
        ∧ sync_attempts r ≤ sync_attempts r'.
Proof.
  intros Hl.
  destruct (is_due (sql_now fetch_clk) (days_before (sql_now fetch_clk) 7) r)
    eqn:Hdue.
  - rewrite (drain_pass_outcome_aux rd fetch_clk moment_of db i r Hl Hdue).
    eexists. split; [done|].
    destruct (send_webhook rd (network (moment_of i)) (card_id r)
                           (card_value r)).2 as [[] ?|?]; simpl; lia.
  - assert (Hout : i ∉ fetched_ids fetch_clk 7 db).
    { unfold fetched_ids. rewrite list_elem_of_fmap.
      intros (ps & Hi & Hin).
      apply elem_of_get_pending_syncs in Hin as (j & r' & Hl' & Hd & ->).
      simpl in Hi. subst j. congruence. }
    destruct (drain_pass_frame_aux rd fetch_clk moment_of db i Hout) as [H _].
    rewrite H. exists r. split; [done|lia].
Qed.

(** X7. Through every history in which no caller passes an attempt count of
    its own with a failure, the attempt count of an event never goes
    down. *)
Theorem attempts_never_decrease ops db i r
    (Hops : Forall counts_from_row ops)
    (Hl : card_reads db !! i = Some r) :
  ∃ r', card_reads (run ops db) !! i = Some r'
        ∧ sync_attempts r ≤ sync_attempts r'.
Proof.
  unfold run. revert db r Hl.
  induction Hops as [|op ops Hop _ IH]; intros db r Hl.
  - exists r. split; [done|lia].
  - simpl.
    assert (H1 : ∃ r1, card_reads (step db op) !! i = Some r1
                       ∧ sync_attempts r ≤ sync_attempts r1).
    { destruct op as [clk dev cid cval|clk n|clk j status resp att|rd fc mo];
        simpl.
      - exists r. split; [|lia]. rewrite lookup_insert_ne; [done|].
        intros Heq.
        pose proof (insert_card_read_fresh clk dev cid cval db) as Hf.
        simpl in Hf. rewrite Heq in Hf. congruence.
      - exists r. split; [done|lia].
      - apply update_count_from_row; [|done].
        simpl in Hop. destruct att; [|done]. intros Hs. by destruct Hs.
      - by apply drain_count. }
    destruct H1 as (r1 & Hl1 & Hle1).
    destruct (IH _ _ Hl1) as (r2 & Hl2 & Hle2).
    exists r2. split; [done|lia].
Qed.

Lemma attempts_never_decrease_witness :
  let row := {| device_id := "dev-1"; card_id := "CARD-7";
                card_value := "hello"; timestamp := 1000;
                sync_status := "pending"; sync_attempts := 0;
                last_sync_attempt := None; next_retry := Some 1000;
                webhook_response := None; created_at := 1000 |} in
  ∃ r', card_reads
          (run [RecordOutcome (clock_at 0 1010) 1 "pending" (Some "down")
                              None;
                DrainPass {| config := {| webhook_url := None;
                                          api_key := None |};
                             reader_device_id := "dev-1" |}
                          (clock_at 0 1100)
                          (λ _, {| clock := clock_at 0 1101;
                                   network := λ _, Response 200 "ok" |})]
               (insert_card_read (clock_at 0 1000) "dev-1" "CARD-7" "hello"
                                 empty_db).1) !! 1 = Some r'
        ∧ sync_attempts row ≤ sync_attempts r'.
Proof.
  intros row. apply attempts_never_decrease.
  - repeat constructor.
  - reflexivity.
Defined.

(** * Further properties of the migration script and of start-up *)

(** X9. Running the migration script again changes nothing: the file is left
    as the first run left it, and after a run that ended normally the
    second run ends normally without logging an error.  A run that does
    not end normally leaves the [card_reads] table as it found it. *)
Theorem migration_rerun_safe (d : Disk) :
  (main (main d).1.1).1.1 = (main d).1.1
  ∧ ((main d).2 = Returns →
     main (main d).1.1 = ((main d).1.1, [], Returns))
  ∧ ((main d).2 ≠ Returns → disk_table (main d).1.1 = disk_table d).
Proof.
  destruct d as [|e|e|[[rows|db|columns rows]|] n];
    try (split_and!; done); try (destruct n; split_and!; done).
  rewrite (main_readable _ n). cbn [table_info].
  destruct (bool_decide ("card_id" ∈ columns)) eqn:E.
  - cbn [fst snd]. rewrite main_readable. cbn [table_info]. rewrite E. done.
  - assert (Hexists : main (Readable (Some (OtherTable columns rows)) true)
                      = (Readable (Some (OtherTable columns rows)) true,
                         ["Error during migration: "
                            +:+ "table card_reads_new already exists";
                          "Migration failed: "
                            +:+ "table card_reads_new already exists"],
                         SysExit 1)).
    { rewrite main_readable. cbn [table_info]. by rewrite E. }
    destruct n; cbn [run_migration table_info].
    + cbn [fst snd]. rewrite Hexists. done.
    + destruct (missing_column columns) as [c|]; cbn [fst snd].
      * rewrite Hexists. done.
      * done.
Qed.

(** * Properties of the statistics *)

Lemma tally_list_lookup (l : list (Z * Row)) s :
  foldr (λ ir acc, tally (sync_status ir.2) acc) ∅ l !! s
  = let n := length (filter (λ ir : Z * Row, sync_status ir.2 = s) l) in
    if decide (n = 0%nat) then None else Some n.
Proof.
  induction l as [|[i r] l IH]; [done|].
  simpl foldr. unfold tally at 1. rewrite filter_cons. simpl.
  destruct (decide (sync_status r = s)) as [->|Hne].
  - rewrite lookup_insert_eq, IH. simpl.
    destruct (decide (length _ = 0%nat)) as [->|]; done.
  - by rewrite lookup_insert_ne.
Qed.

Lemma total_tally s acc : total (tally s acc) = S (total acc).
Proof.
  unfold total, tally.
  assert (Hcomm : ∀ (j1 j2 : string) (z1 z2 y : nat),
            (z1 + (z2 + y) = z2 + (z1 + y))%nat) by (intros; lia).
  destruct (acc !! s) as [n|] eqn:E; simpl.
  - rewrite <- insert_delete_eq.
    rewrite map_fold_insert_L; [|by intros; apply Hcomm|apply lookup_delete_eq].
    rewrite (map_fold_delete_L _ _ s n acc); [|by intros; apply Hcomm|done].
    lia.
  - rewrite map_fold_insert_L; [done|by intros; apply Hcomm|done].
Qed.

Lemma get_sync_stats_counts_aux db :
  (∀ s, get_sync_stats db !! s
        = if decide (count_status s db = 0%nat) then None
          else Some (count_status s db))
  ∧ total (get_sync_stats db) = size (card_reads db).
Proof.
  split.
  - intros s. apply tally_list_lookup.
  - unfold get_sync_stats. rewrite <- length_map_to_list.
    induction (map_to_list (card_reads db)) as [|ir l IH]; [done|].
    simpl. by rewrite total_tally, IH.
Qed.

(** X10. The dictionary [get_sync_stats] returns has, for every status that
    some row carries, the number of rows carrying it; a status no row
    carries is not a key; and the values add up to the number of rows. *)
Theorem get_sync_stats_counts db :
  (∀ s, get_sync_stats db !! s
        = if decide (count_status s db = 0%nat) then None
          else Some (count_status s db))
  ∧ total (get_sync_stats db) = size (card_reads db).
Proof. by apply get_sync_stats_counts_aux. Qed.

Lemma count_insert_fresh (m : gmap Z Row) k row s :
  m !! k = None →
  length (filter (λ ir : Z * Row, sync_status ir.2 = s)
                 (map_to_list (<[k := row]> m)))
  = ((if decide (sync_status row = s) then 1 else 0)
     + length (filter (λ ir : Z * Row, sync_status ir.2 = s)
                      (map_to_list m)))%nat.
Proof.
  intros Hk. rewrite (map_to_list_insert m k row Hk).
  rewrite filter_cons. simpl.
  by destruct (decide (sync_status row = s)).
Qed.

Lemma alter_as_insert (f : Row → Row) (m : gmap Z Row) i r :
  m !! i = Some r → alter f i m = <[i := f r]> (delete i m).
Proof.
  intros Hl. apply map_eq. intros j. rewrite lookup_alter.
  destruct (decide (i = j)) as [->|Hne].
  - by rewrite Hl, lookup_insert_eq.
  - by rewrite lookup_insert_ne, lookup_delete_ne.
Qed.

Lemma count_alter (f : Row → Row) (m : gmap Z Row) i r s :
  m !! i = Some r →
  (length (filter (λ ir : Z * Row, sync_status ir.2 = s)
                  (map_to_list (alter f i m)))
   + (if decide (sync_status r = s) then 1 else 0)
   = length (filter (λ ir : Z * Row, sync_status ir.2 = s)
                    (map_to_list m))
     + (if decide (sync_status (f r) = s) then 1 else 0))%nat.
Proof.
  intros Hl. rewrite (alter_as_insert f m i r Hl).
  rewrite <- (insert_delete_id m i r Hl) at 2.
  rewrite !count_insert_fresh by apply lookup_delete_eq. lia.
Qed.

(** X11. Inserting an event adds one to the [pending] entry of the
    statistics, creating the entry when there was none, and leaves every
    other entry as it was. *)
Theorem stats_after_insert clk dev cid cval db :
  get_sync_stats (insert_card_read clk dev cid cval db).1
  = <["pending" := S (default 0%nat (get_sync_stats db !! "pending"))]>
      (get_sync_stats db).
Proof.
  apply map_eq. intros s.
  destruct (get_sync_stats_counts_aux (insert_card_read clk dev cid cval db).1)
    as [H1 _].
  destruct (get_sync_stats_counts_aux db) as [H0 _].
  rewrite H1. unfold count_status. cbn [insert_card_read fst card_reads].
  rewrite count_insert_fresh
    by apply (insert_card_read_fresh clk dev cid cval db).
  cbn [sync_status].
  destruct (decide ("pending" = s)) as [<-|Hne].
  - rewrite lookup_insert_eq, H0. unfold count_status.
    destruct (decide (length _ = 0%nat)) as [->|]; done.
  - rewrite lookup_insert_ne by done. rewrite H0. unfold count_status. done.
Qed.

Lemma update_as_alter clk i status resp att db r :
  card_reads db !! i = Some r →
  ∃ g, card_reads (update_sync_status clk i status resp att db)
       = alter g i (card_reads db)
       ∧ sync_status (g r) = status.
Proof.
  intros Hl. unfold update_sync_status.
  destruct (decide (status = "success")); [by eexists|].
  destruct att; [by eexists|]. rewrite Hl. by eexists.
Qed.

(** X12. Recording an outcome for an existing event moves exactly that one
    row from the group of its old status to the group of the status
    written; the number of rows stays the same.  When the status changes,
    the new status has an entry in the statistics afterwards, and the
    old one loses its entry if the row was the last of its group. *)
Theorem stats_after_outcome clk i status resp att db r
    (Hl : card_reads db !! i = Some r) :
  let db' := update_sync_status clk i status resp att db in
  (∀ s, (count_status s db' + (if decide (sync_status r = s) then 1 else 0)
         = count_status s db + (if decide (status = s) then 1 else 0))%nat)
  ∧ total (get_sync_stats db') = total (get_sync_stats db)
  ∧ (sync_status r ≠ status →
     get_sync_stats db' !! status = Some (S (count_status status db))
     ∧ get_sync_stats db' !! sync_status r
       = if decide (count_status (sync_status r) db = 1%nat) then None
         else Some (count_status (sync_status r) db - 1)%nat).
Proof.
  intros db'.
  destruct (update_as_alter clk i status resp att db r Hl) as (g & Hg & Hst).
  assert (Hcount : ∀ s,
            (count_status s db' + (if decide (sync_status r = s) then 1 else 0)
             = count_status s db + (if decide (status = s) then 1 else 0))%nat).
  { intros s. unfold count_status. subst db'. rewrite Hg.
    rewrite <- Hst. by apply count_alter. }
  split; [done|]. split.
  - destruct (get_sync_stats_counts_aux db') as [_ ->].
    destruct (get_sync_stats_counts_aux db) as [_ ->].
    subst db'. rewrite Hg.
    rewrite <- !length_map_to_list.
    rewrite (alter_as_insert g _ i r Hl).
    rewrite <- (insert_delete_id (card_reads db) i r Hl) at 2.
    rewrite !map_to_list_insert by apply lookup_delete_eq. done.
  - intros Hne.
    destruct (get_sync_stats_counts_aux db') as [H1 _]. rewrite !H1.
    pose proof (Hcount status) as Hs. pose proof (Hcount (sync_status r)) as Ho.
    rewrite decide_False in Hs by done. rewrite decide_True in Hs by done.
    rewrite decide_True in Ho by done. rewrite decide_False in Ho by done.
    split.
    + rewrite decide_False by lia. f_equal. lia.
    + destruct (decide (count_status (sync_status r) db = 1%nat)).
      * rewrite decide_True by lia. done.
      * rewrite decide_False by lia. f_equal. lia.
Qed.

Lemma stats_after_outcome_witness :
  let db := (insert_card_read (clock_at 0 1000) "dev-1" "CARD-7" "hello"
                              empty_db).1 in
  let db' := update_sync_status (clock_at 0 1030) 1 "success" (Some "ok")
               None db in
  get_sync_stats db' !! "success" = Some 1%nat
  ∧ get_sync_stats db' !! "pending" = None.
Proof.
  intros db db'.
  destruct (stats_after_outcome (clock_at 0 1030) 1 "success" (Some "ok")
              None db _ eq_refl) as (_ & _ & H).
  apply H. discriminate.
Defined.

(** * Properties of the operator commands *)

Lemma lookup_retry_failed clk db i :
  card_reads (retry_failed clk db).1 !! i
  = retry_row clk <$> card_reads db !! i.
Proof. simpl. apply lookup_fmap. Qed.

Lemma size_filter_status (m : gmap Z Row) s :
  size (filter (λ ir : Z * Row, sync_status ir.2 = s) m)
  = length (filter (λ ir : Z * Row, sync_status ir.2 = s) (map_to_list m)).
Proof.
  rewrite map_filter_alt. apply map_size_list_to_map.
  apply (sublist_NoDup _ ((map_to_list m).*1)).
  - apply NoDup_fst_map_to_list.
  - apply fmap_sublist, sublist_filter.
Qed.

(** X13. [retry_failed] makes every pending event due: whenever it is
    fetched afterwards, with a window that reaches back to its creation
    and to a date SQLite handles, it is in the batch, whatever
    [next_retry] it had.  Rows that are not
    pending are left exactly as they were, no key is added or removed,
    and the number reported is the number of pending rows. *)
Theorem retry_failed_makes_due clk db clk' n i r
    (Hl : card_reads db !! i = Some r)
    (Hpending : sync_status r = "pending")
    (Hafter : sql_now clk ≤ sql_now clk')
    (Hvalid : valid_window (sql_now clk') n)
    (Hwindow : sql_now clk' - n * 86400 ≤ created_at r) :
  i ∈ fetched_ids clk' n (retry_failed clk db).1
  ∧ (∀ j r0, card_reads db !! j = Some r0 → sync_status r0 ≠ "pending" →
       card_reads (retry_failed clk db).1 !! j = Some r0)
  ∧ dom (card_reads (retry_failed clk db).1) = dom (card_reads db)
  ∧ (retry_failed clk db).2 = count_status "pending" db.
Proof.
  split_and!.
  - unfold fetched_ids. apply list_elem_of_fmap.
    exists (to_pending (i, retry_row clk r)). split; [done|].
    apply elem_of_get_pending_syncs. exists i, (retry_row clk r).
    split; [by rewrite lookup_retry_failed, Hl|]. split; [|done].
    apply is_due_iff. unfold retry_row. rewrite decide_True by done. simpl.
    split_and!; try done. right. eauto.
  - intros j r0 Hj Hs. rewrite lookup_retry_failed, Hj. simpl.
    unfold retry_row. by rewrite decide_False.
  - simpl. apply dom_fmap_L.
  - simpl. apply size_filter_status.
Qed.

Lemma retry_failed_makes_due_witness :
  let db := update_sync_status (clock_at 0 1010) 1 "pending" (Some "down")
              (Some 9)
              (insert_card_read (clock_at 0 1000) "dev-1" "CARD-7" "hello"
                                empty_db).1 in
  1 ∈ fetched_ids (clock_at 0 1021) 7 (retry_failed (clock_at 0 1020) db).1.
Proof.
  intros db.
  refine (proj1 (retry_failed_makes_due (clock_at 0 1020) db
                   (clock_at 0 1021) 7 1 _ eq_refl eq_refl _ _ _));
    vm_compute; intuition discriminate.
Defined.

Lemma lookup_cleanup_old clk days db i :
  card_reads (cleanup_old clk days db).1 !! i
  = match card_reads db !! i with
    | Some r => if decide (is_old_success clk days r) then None else Some r
    | None => None
    end.
Proof.
  unfold cleanup_old.
  destruct (decide (size _ = 0%nat)) as [Hz|Hnz]; cbn [fst].
  - apply map_size_empty_inv in Hz.
    destruct (card_reads db !! i) as [r|] eqn:E; [|done].
    destruct (decide (is_old_success clk days r)) as [Hold|]; [|done].
    exfalso.
    eapply (map_filter_empty_not_lookup
              (λ ir : Z * Row, is_old_success clk days ir.2));
      [exact Hz| |exact E]. done.
  - cbn [with_rows card_reads]. rewrite map_lookup_filter.
    destruct (card_reads db !! i) as [r|]; [|done]. simpl.
    destruct (decide (is_old_success clk days r)).
    + by rewrite option_guard_False by (by intros ?).
    + by rewrite option_guard_True.
Qed.

(** X14. [cleanup_old] deletes exactly the rows with status [success] that
    were created before the cutoff and reports their number; every other
    row, in particular every pending one, stays as it is, so no later
    fetch is affected.  With a negative number of days, and with any
    other for which the cutoff is not a date SQLite handles, nothing is
    deleted.  The key counter is not lowered. *)
Theorem cleanup_old_effect clk days db :
  let db' := (cleanup_old clk days db).1 in
  (∀ i, card_reads db' !! i
        = match card_reads db !! i with
          | Some r =>
              if decide (sync_status r = "success"
                         ∧ valid_window (sql_now clk) days
                         ∧ created_at r < sql_now clk - days * 86400)
              then None else Some r
          | None => None
          end)
  ∧ (size (card_reads db') + (cleanup_old clk days db).2
     = size (card_reads db))%nat
  ∧ (∀ clk' n ps, ps ∈ (get_pending_syncs clk' n db').2
                  ↔ ps ∈ (get_pending_syncs clk' n db).2)
  ∧ (days < 0 → db' = db)
  ∧ (¬ valid_window (sql_now clk) days → db' = db)
  ∧ sqlite_sequence db' = sqlite_sequence db.
Proof.
  intros db'.
  assert (Hold : ∀ r, is_old_success clk days r
                      ↔ sync_status r = "success"
                        ∧ valid_window (sql_now clk) days
                        ∧ created_at r < sql_now clk - days * 86400).
  { intros r. unfold is_old_success, days_before.
    destruct (decide (valid_window (sql_now clk) days)); tauto. }
  assert (Hnone : ¬ valid_window (sql_now clk) days → db' = db).
  { intros Hno. subst db'. unfold cleanup_old.
    rewrite decide_True; [done|].
    apply map_size_empty_iff, map_eq. intros i.
    rewrite lookup_empty. apply map_lookup_filter_None_2. right.
    intros r _ H. apply Hold in H. tauto. }
  assert (Hlook : ∀ i, card_reads db' !! i
        = match card_reads db !! i with
          | Some r =>
              if decide (sync_status r = "success"
                         ∧ valid_window (sql_now clk) days
                         ∧ created_at r < sql_now clk - days * 86400)
              then None else Some r
          | None => None
          end).
  { intros i. subst db'. rewrite lookup_cleanup_old.
    destruct (card_reads db !! i) as [r|]; [|done].
    destruct (decide (is_old_success clk days r)) as [H|H];
      destruct (decide (_ ∧ _)) as [H'|H']; try done.
    - exfalso. apply H'. by apply Hold.
    - exfalso. apply H. by apply Hold. }
  split_and!.
  - done.
  - subst db'. unfold cleanup_old.
    destruct (decide (size _ = 0%nat)) as [Hz|Hnz]; cbn [fst snd].
    + lia.
    + cbn [with_rows card_reads].
      rewrite <- (map_filter_union_complement
                    (λ ir : Z * Row, is_old_success clk days ir.2)
                    (card_reads db)) at 3.
      rewrite map_size_disj_union
        by apply map_disjoint_filter_complement. lia.
  - intros clk' n ps. rewrite !elem_of_get_pending_syncs. split.
    + intros (i & r & Hl & Hdue & ->). exists i, r. split; [|done].
      rewrite Hlook in Hl. destruct (card_reads db !! i) as [r0|]; [|done].
      destruct (decide _); [done|]. done.
    + intros (i & r & Hl & Hdue & ->). exists i, r. split; [|done].
      rewrite Hlook, Hl. rewrite decide_False; [done|].
      intros [Hs _]. apply is_due_pending in Hdue. congruence.
  - intros Hneg. apply Hnone. intros [[? _] _]. lia.
  - done.
  - subst db'. unfold cleanup_old. by destruct (decide _).
Qed.

(** ** Keys are never assigned twice *)

Lemma admin_step_sequence db op :
  sqlite_sequence db ≤ sqlite_sequence (admin_step db op).
Proof.
  destruct op as [[clk dev cid cval|clk n|clk j status resp att|rd fc mo]
                 |clk|clk days]; simpl.
  - lia.
  - lia.
  - rewrite update_keeps_sequence. lia.
  - rewrite drain_keeps_sequence. lia.
  - lia.
  - unfold cleanup_old. destruct (decide _); simpl; lia.
Qed.

Lemma admin_run_sequence ops db :
  sqlite_sequence db ≤ sqlite_sequence (admin_run ops db).
Proof.
  unfold admin_run. revert db.
  induction ops as [|op ops IH]; intros db; [simpl; lia|].
  simpl. pose proof (admin_step_sequence db op). specialize (IH (admin_step db op)).
  lia.
Qed.

Lemma insert_key_above_sequence clk dev cid cval db :
  sqlite_sequence db < (insert_card_read clk dev cid cval db).2
  ∧ sqlite_sequence (insert_card_read clk dev cid cval db).1
    = (insert_card_read clk dev cid cval db).2.
Proof. simpl. lia. Qed.

Lemma admin_step_covers db op :
  sequence_covers db → sequence_covers (admin_step db op).
Proof.
  intros Hcov.
  assert (Hsub : ∀ db',
            sqlite_sequence db ≤ sqlite_sequence db' →
            (∀ i, card_reads db !! i = None → card_reads db' !! i = None) →
            sequence_covers db').
  { intros db' Hseq Hkeys i r Hi.
    destruct (card_reads db !! i) as [r0|] eqn:E.
    - specialize (Hcov i r0 E). lia.
    - rewrite (Hkeys i E) in Hi. done. }
  destruct op as [[clk dev cid cval|clk n|clk j status resp att|rd fc mo]
                 |clk|clk days].
  - intros i r Hi. simpl in Hi |- *.
    destruct (decide (i = sqlite_sequence db `max` max_rowid (card_reads db) + 1))
      as [->|Hne]; [lia|].
    rewrite lookup_insert_ne in Hi by done.
    specialize (Hcov i r Hi). lia.
  - done.
  - apply Hsub; simpl.
    + rewrite update_keeps_sequence. lia.
    + intros i. apply update_keeps_absent.
  - apply Hsub; simpl.
    + rewrite drain_keeps_sequence. lia.
    + intros i. apply drain_keeps_absent.
  - apply Hsub; simpl; [lia|].
    intros i Hi. by rewrite lookup_fmap, Hi.
  - apply Hsub.
    + apply (admin_step_sequence db (CleanupOld clk days)).
    + intros i Hi. simpl. by rewrite lookup_cleanup_old, Hi.
Qed.

Lemma admin_run_covers ops db :
  sequence_covers db → sequence_covers (admin_run ops db).
Proof.
  unfold admin_run. revert db.
  induction ops as [|op ops IH]; intros db Hcov; [done|].
  simpl. apply IH. by apply admin_step_covers.
Qed.

(** X15. The keys handed out by [insert_card_read] strictly increase with
    the order of the inserts, whatever the worker and the operator do in
    between, deletions by [cleanup_old] included. *)
Theorem insert_ids_increase ops db clk1 dev1 cid1 cval1 clk2 dev2 cid2 cval2 :
  let first := insert_card_read clk1 dev1 cid1 cval1 db in
  let second :=
    insert_card_read clk2 dev2 cid2 cval2 (admin_run ops first.1) in
  first.2 < second.2.
Proof.
  intros first second.
  destruct (insert_key_above_sequence clk1 dev1 cid1 cval1 db) as [_ H1].
  destruct (insert_key_above_sequence clk2 dev2 cid2 cval2
              (admin_run ops first.1)) as [H2 _].
  pose proof (admin_run_sequence ops first.1).
  subst first second. lia.
Qed.

(** X16. In a database whose key counter covers its keys (as in an empty
    database and in one produced by the migration), the counter keeps
    covering them through every history, and a key that was ever in the
    table is never handed out again, even after its row was deleted. *)
Theorem ids_never_reused db ops i r clk dev cid cval
    (Hcov : sequence_covers db)
    (Hl : card_reads db !! i = Some r) :
  sequence_covers (admin_run ops db)
  ∧ i < (insert_card_read clk dev cid cval (admin_run ops db)).2
  ∧ sequence_covers empty_db
  ∧ (∀ rows d',
       (migrate_database (Readable (Some (LegacyTable rows)) false)).1.1
       = Readable (Some (CurrentTable d')) false →
       sequence_covers d').
Proof.
  split_and!.
  - by apply admin_run_covers.
  - destruct (insert_key_above_sequence clk dev cid cval
                (admin_run ops db)) as [H _].
    pose proof (admin_run_sequence ops db).
    specialize (Hcov i r Hl). lia.
  - intros k r0 H. unfold empty_db in H. cbn [card_reads] in H.
    by rewrite lookup_empty in H.
  - intros rows d' H. injection H as <-.
    intros k r0 Hk. simpl in *. by apply max_rowid_ge in Hk.
Qed.

Lemma ids_never_reused_witness :
  let db := update_sync_status (clock_at 0 1010) 1 "success" (Some "ok") None
              (insert_card_read (clock_at 0 1000) "dev-1" "CARD-7" "hello"
                                empty_db).1 in
  let after := admin_run [CleanupOld (clock_at 0 9000000) 30] db in
  card_reads after !! 1 = None
  ∧ 1 < (insert_card_read (clock_at 0 9000001) "dev-1" "CARD-8" "" after).2.
Proof.
  intros db after. split; [reflexivity|].
  refine (proj1 (proj2 (ids_never_reused db [CleanupOld (clock_at 0 9000000) 30]
                          1 _ (clock_at 0 9000001) "dev-1" "CARD-8" ""
                          _ eq_refl))).
  change (sequence_covers
            (admin_run
               [Core (Append (clock_at 0 1000) "dev-1" "CARD-7" "hello");
                Core (RecordOutcome (clock_at 0 1010) 1 "success" (Some "ok")
                                    None)]
               empty_db)).
  apply admin_run_covers. intros k r0 Hk.
  unfold empty_db in Hk. cbn [card_reads] in Hk.
  by rewrite lookup_empty in Hk.
Defined.

(** * Properties of the capture path *)

Lemma read_card_cases last rd :
  (∃ a, read_card last rd = (Some a.1, Some a) ∧ Some a.1 ≠ last)
  ∨ read_card last rd = (last, None).
Proof.
  destruct rd as [id text|]; [|by right]. unfold read_card.
  destruct (decide (Some (pretty id) = last)) as [Heq|Hne]; [by right|].
  left. eexists (_, _). split; [reflexivity|]. done.
Qed.

Lemma detections_head last readings a :
  detections last readings !! 0%nat = Some a → Some a.1 ≠ last.
Proof.
  induction readings as [|rd readings IH]; [done|]. simpl.
  destruct (read_card_cases last rd) as [(b & -> & Hb)| ->].
  - simpl. by intros [= <-].
  - apply IH.
Qed.

Lemma detections_adjacent last readings k a b :
  detections last readings !! k = Some a →
  detections last readings !! S k = Some b →
  a.1 ≠ b.1.
Proof.
  revert last k. induction readings as [|rd readings IH]; intros last k; [done|].
  simpl. destruct (read_card_cases last rd) as [(c & -> & Hc)| ->].
  - destruct k as [|k]; simpl.
    + intros [= <-] Hb. apply detections_head in Hb. congruence.
    + apply IH.
  - apply IH.
Qed.

(** X17. [read_card] reports a card exactly when its id differs from the id
    of the card it reported last: in the sequence of reported cards no
    two neighbours have the same card id, and the first differs from the
    card remembered before.  A failed read reports nothing and does not
    reset what is remembered, so failed reads between two presentations
    of one card do not make it count as new. *)
Theorem read_card_dedup last readings :
  let reported := detections last readings in
  (∀ a, reported !! 0%nat = Some a → Some a.1 ≠ last)
  ∧ (∀ k a b, reported !! k = Some a → reported !! S k = Some b →
       a.1 ≠ b.1)
  ∧ detections last (filter (λ rd, is_read rd) readings) = reported
  ∧ (∀ id1 id2 text,
       (read_card (Some (pretty id1)) (CardRead id2 text)).2 = None
       ↔ id1 = id2).
Proof.
  intros reported. split_and!.
  - intros a. apply detections_head.
  - intros k a b. apply detections_adjacent.
  - subst reported. revert last.
    induction readings as [|rd readings IH]; intros last; [done|].
    rewrite filter_cons. destruct rd as [id text|]; simpl.
    + destruct (decide (Some (pretty id) = last)); simpl; by rewrite IH.
    + apply IH.
  - intros id1 id2 text. unfold read_card.
    destruct (decide (Some (pretty id2) = Some (pretty id1))) as [Heq|Hne];
      simpl.
    + split; [|done]. intros _. injection Heq as Heq.
      by apply (inj pretty) in Heq.
    + split; [done|]. intros ->. done.
Qed.

(** ** [strip] *)

Lemma lstrip_length s : (String.length (lstrip s) ≤ String.length s)%nat.
Proof. induction s as [|c s IH]; simpl; [lia|]. destruct (is_space c); simpl; lia. Qed.

Lemma lstrip_fixed_head c s :
  lstrip (String c s) = String c s → is_space c = false.
Proof.
  simpl. destruct (is_space c); [|done]. intros H.
  pose proof (lstrip_length s) as Hlen. rewrite H in Hlen. simpl in Hlen. lia.
Qed.

Lemma lstrip_lstrip s : lstrip (lstrip s) = lstrip s.
Proof.
  induction s as [|c s IH]; [done|]. simpl.
  destruct (is_space c) eqn:E; [done|]. simpl. by rewrite E.
Qed.

Lemma rstrip_rstrip s : rstrip (rstrip s) = rstrip s.
Proof.
  induction s as [|c s IH]; [done|]. simpl.
  destruct (rstrip s) as [|d t] eqn:E.
  - destruct (is_space c) eqn:Ec; [done|]. simpl. by rewrite Ec.
  - change (rstrip (String c (String d t))) with
      (match rstrip (String d t) with
       | EmptyString => if is_space c then EmptyString
                        else String c EmptyString
       | u => String c u
       end).
    by rewrite IH.
Qed.

Lemma lstrip_rstrip_fixed s : lstrip s = s → lstrip (rstrip s) = rstrip s.
Proof.
  destruct s as [|c s]; [done|]. intros H.
  apply lstrip_fixed_head in H. simpl.
  destruct (rstrip s); rewrite ?H; simpl; by rewrite ?H.
Qed.

Lemma strip_strip s : strip (strip s) = strip s.
Proof.
  unfold strip.
  rewrite (lstrip_rstrip_fixed (lstrip s)) by apply lstrip_lstrip.
  apply rstrip_rstrip.
Qed.

Lemma read_card_value_stripped last rd last' cid cval :
  read_card last rd = (last', Some (cid, cval)) → strip cval = cval.
Proof.
  destruct rd as [id text|]; [|done]. unfold read_card.
  destruct (decide _); [done|]. intros [= _ _ <-].
  destruct text; [done|]. apply strip_strip.
Qed.

Lemma run_once_cases rd st x :
  (∃ cid cval last',
     read_card st.1 x.2 = (last', Some (cid, cval))
     ∧ run_once rd st x
       = (last', (insert_card_read x.1 (reader_device_id rd) cid cval st.2).1))
  ∨ (∃ last', read_card st.1 x.2 = (last', None)
              ∧ run_once rd st x = (last', st.2)).
Proof.
  unfold run_once.
  destruct (read_card st.1 x.2) as [last' [[cid cval]|]]; [left|right]; eauto.
Qed.

(** X18. The capture loop stores one row per reported card and nothing else:
    the table grows by the number of reports, the rows it held stay as
    they are, and every row added is pending with attempt count 0, carries
    the device id of the running reader and the id and value of a
    reported card, and its value has no white space at either end. *)
Theorem run_loop_stores rd readings last db :
  let st := run_loop rd readings (last, db) in
  let reported := detections last readings.*2 in
  size (card_reads st.2)
  = (size (card_reads db) + length reported)%nat
  ∧ (∀ i r, card_reads db !! i = Some r → card_reads st.2 !! i = Some r)
  ∧ (∀ i r, card_reads st.2 !! i = Some r → card_reads db !! i = None →
       device_id r = reader_device_id rd
       ∧ sync_status r = "pending"
       ∧ sync_attempts r = 0
       ∧ (card_id r, card_value r) ∈ reported
       ∧ strip (card_value r) = card_value r).
Proof.
  unfold run_loop. revert last db.
  induction readings as [|x readings IH]; intros last db.
  - simpl. split_and!; [lia|done|]. intros i r H1 H2. congruence.
  - cbn [foldl fmap list_fmap detections].
    destruct (run_once_cases rd (last, db) x)
      as [(cid & cval & last' & Hread & Hrun)|(last' & Hread & Hrun)];
      cbn [fst snd] in Hread, Hrun; rewrite Hrun, Hread.
    + set (ins := insert_card_read x.1 (reader_device_id rd) cid cval db).
      destruct (IH last' ins.1) as (Hs & Hold & Hnew).
      pose proof (insert_card_read_fresh x.1 (reader_device_id rd) cid cval db)
        as Hfresh. fold ins in Hfresh.
      assert (Hins : card_reads ins.1
                     = <[ins.2 := {| device_id := reader_device_id rd;
                                     card_id := cid; card_value := cval;
                                     timestamp := sql_now x.1;
                                     sync_status := "pending";
                                     sync_attempts := 0;
                                     last_sync_attempt := None;
                                     next_retry := Some (sql_now x.1);
                                     webhook_response := None;
                                     created_at := sql_now x.1 |}]>
                         (card_reads db)) by done.
      split_and!.
      * rewrite Hs, Hins, map_size_insert_None by done. simpl. lia.
      * intros i r Hi. apply Hold. rewrite Hins.
        rewrite lookup_insert_ne; [done|]. intros <-. congruence.
      * intros i r Hi Hnone.
        destruct (card_reads ins.1 !! i) as [r1|] eqn:E.
        -- pose proof (Hold i r1 E) as Hfin. rewrite Hfin in Hi.
           injection Hi as <-. rewrite Hins in E.
           destruct (decide (ins.2 = i)) as [Heq|Hne].
           ++ rewrite Heq, lookup_insert_eq in E. injection E as <-. simpl.
              split_and!; try done.
              ** apply elem_of_cons. by left.
              ** by eapply read_card_value_stripped.
           ++ rewrite lookup_insert_ne in E by done. congruence.
        -- destruct (Hnew i r Hi E) as (H1 & H2 & H3 & H4 & H5).
           split_and!; try done. apply elem_of_cons. by right.
    + apply IH.
Qed.

Lemma run_loop_stores_instance :
  map_to_list
    (card_reads
       (run_loop {| config := {| webhook_url := None; api_key := None |};
                    reader_device_id := "dev-1" |}
          [(clock_at 0 10, CardRead 12 " a ");
           (clock_at 0 11, CardRead 12 "b");
           (clock_at 0 12, ReadFailed);
           (clock_at 0 13, CardRead 12 "c")]
          (None, empty_db)).2)
  = [(1, {| device_id := "dev-1"; card_id := "12"; card_value := "a";
            timestamp := 10; sync_status := "pending"; sync_attempts := 0;
            last_sync_attempt := None; next_retry := Some 10;
            webhook_response := None; created_at := 10 |})].
Proof. vm_compute. reflexivity. Qed.

(** * Properties of the configuration update *)

Lemma newline_eqb c : Ascii.eqb c newline = true → c = newline.
Proof. apply Ascii.eqb_eq. Qed.

Lemma split_lines_nonempty s : split_lines s ≠ [].
Proof.
  destruct s as [|c s]; [done|]. simpl.
  destruct (Ascii.eqb c newline); [done|]. by destruct (split_lines s).
Qed.

Lemma join_split_lines s : join_lines (split_lines s) = s.
Proof.
  induction s as [|c s IH]; [done|]. simpl split_lines.
  pose proof (split_lines_nonempty s) as Hne.
  destruct (Ascii.eqb c newline) eqn:E.
  - apply newline_eqb in E as ->.
    destruct (split_lines s) as [|l ls] eqn:Es; [done|].
    change (join_lines (EmptyString :: l :: ls))
      with (String newline (join_lines (l :: ls))).
    by rewrite IH.
  - destruct (split_lines s) as [|l ls] eqn:Es; [done|].
    destruct ls as [|l2 ls].
    + simpl in *. by rewrite IH.
    + change (join_lines (String c l :: l2 :: ls))
        with (String c (join_lines (l :: l2 :: ls))).
      by rewrite IH.
Qed.

Lemma split_lines_app_nl a t :
  split_lines (a +:+ nl +:+ t) = split_lines a ++ split_lines t.
Proof.
  induction a as [|c a IH]; [done|].
  change (String c a +:+ nl +:+ t) with (String c (a +:+ nl +:+ t)).
  simpl split_lines. rewrite IH.
  destruct (Ascii.eqb c newline); [done|].
  pose proof (split_lines_nonempty a).
  by destruct (split_lines a).
Qed.

Lemma split_lines_single l : no_newline l = true → split_lines l = [l].
Proof.
  induction l as [|c l IH]; [done|]. simpl.
  intros H. apply andb_true_iff in H as [Hc Hl].
  apply negb_true_iff in Hc. rewrite Hc, IH by done. done.
Qed.

Lemma split_lines_no_newline s l :
  l ∈ split_lines s → no_newline l = true.
Proof.
  revert l. induction s as [|c s IH]; intros l.
  - simpl. intros ->%list_elem_of_singleton. done.
  - simpl. destruct (Ascii.eqb c newline) eqn:E.
    + intros [->|H]%elem_of_cons; [done|]. by apply IH.
    + pose proof (split_lines_nonempty s).
      destruct (split_lines s) as [|l0 ls]; [done|].
      intros [->|H']%elem_of_cons.
      * simpl. rewrite E. simpl. apply IH. apply elem_of_cons. by left.
      * apply IH. apply elem_of_cons. by right.
Qed.

Lemma split_join_lines ls :
  ls ≠ [] → (∀ l, l ∈ ls → no_newline l = true) →
  split_lines (join_lines ls) = ls.
Proof.
  induction ls as [|l ls IH]; [done|]. intros _ Hall.
  destruct ls as [|l2 ls].
  - simpl. apply split_lines_single. apply Hall. apply elem_of_cons. by left.
  - change (join_lines (l :: l2 :: ls))
      with (l +:+ nl +:+ join_lines (l2 :: ls)).
    rewrite split_lines_app_nl, IH; [|done|].
    + rewrite split_lines_single; [done|].
      apply Hall. apply elem_of_cons. by left.
    + intros l' Hl'. apply Hall. apply elem_of_cons. by right.
Qed.

Lemma startswith_nil_r p : startswith p EmptyString = true → p = EmptyString.
Proof. by destruct p. Qed.

Lemma startswith_app p a b :
  startswith p a = true → startswith p (a +:+ b) = true.
Proof.
  revert a. induction p as [|x p IH]; intros a; [done|].
  destruct a as [|y a]; [done|]. simpl.
  intros [-> H]%andb_true_iff. simpl. by apply IH.
Qed.

Lemma startswith_contains p s : startswith p s = true → contains p s = true.
Proof. destruct s; simpl; intros ->; done. Qed.

Lemma contains_app_r p a b :
  contains p b = true → contains p (a +:+ b) = true.
Proof.
  intros H. induction a as [|c a IH]; [done|].
  change (String c a +:+ b) with (String c (a +:+ b)).
  simpl. rewrite IH. apply orb_true_r.
Qed.

Lemma contains_app_l p a b :
  contains p a = true → contains p (a +:+ b) = true.
Proof.
  induction a as [|c a IH].
  - simpl. rewrite orb_false_r. intros ->%startswith_nil_r.
    by destruct b.
  - change (String c a +:+ b) with (String c (a +:+ b)).
    cbn [contains]. intros [H|H]%orb_true_iff.
    + apply (startswith_app _ _ b) in H.
      change (String c a +:+ b) with (String c (a +:+ b)) in H.
      by rewrite H.
    + rewrite (IH H). apply orb_true_r.
Qed.

Lemma contains_join_lines p ls l :
  l ∈ ls → contains p l = true → contains p (join_lines ls) = true.
Proof.
  induction ls as [|l0 ls IH]; [by intros ?%not_elem_of_nil|].
  intros Hin Hc. destruct ls as [|l2 ls].
  - apply list_elem_of_singleton in Hin as ->. done.
  - change (join_lines (l0 :: l2 :: ls))
      with (l0 +:+ nl +:+ join_lines (l2 :: ls)).
    apply elem_of_cons in Hin as [->|Hin].
    + by apply contains_app_l.
    + do 2 apply contains_app_r. by apply IH.
Qed.

Lemma contains_line p s l :
  l ∈ split_lines s → contains p l = true → contains p s = true.
Proof.
  intros Hin Hc. rewrite <- (join_split_lines s).
  by eapply contains_join_lines.
Qed.

Lemma startswith_rstrip p t :
  startswith p (rstrip t) = true → startswith p t = true.
Proof.
  revert p. induction t as [|c t IH]; intros p; [done|].
  destruct p as [|a p]; [done|]. simpl.
  destruct (rstrip t) as [|d u] eqn:E.
  - destruct (is_space c); [done|]. simpl.
    intros [-> ->%startswith_nil_r]%andb_true_iff. done.
  - simpl. intros [-> H]%andb_true_iff. simpl. by apply IH.
Qed.

Lemma contains_lstrip p l :
  contains p (lstrip l) = true → contains p l = true.
Proof.
  induction l as [|c l IH]; [done|]. simpl lstrip.
  destruct (is_space c); [|done].
  intros H. cbn [contains]. rewrite (IH H). apply orb_true_r.
Qed.

Lemma device_id_line_contains l :
  is_device_id_line l = true → contains "device_id" l = true.
Proof.
  unfold is_device_id_line, strip. intros H.
  apply contains_lstrip, startswith_contains. by apply startswith_rstrip.
Qed.

Lemma replace_first_none new ls :
  (∀ l, l ∈ ls → is_device_id_line l = false) → replace_first new ls = ls.
Proof.
  induction ls as [|l ls IH]; [done|]. intros H. simpl.
  rewrite (H l) by (apply elem_of_cons; by left).
  rewrite IH; [done|]. intros l' Hl'. apply H. apply elem_of_cons. by right.
Qed.

Lemma replace_first_app new l1 l2 :
  (∀ l, l ∈ l1 → is_device_id_line l = false) →
  replace_first new (l1 ++ l2) = l1 ++ replace_first new l2.
Proof.
  induction l1 as [|l l1 IH]; [done|]. intros H. simpl.
  rewrite (H l) by (apply elem_of_cons; by left).
  rewrite IH; [done|]. intros l' Hl'. apply H. apply elem_of_cons. by right.
Qed.

(** A list of lines either has no qualifying line or splits at the
    first one. *)
Lemma first_device_id_line ls :
  (∀ l, l ∈ ls → is_device_id_line l = false)
  ∨ ∃ l1 m l2, ls = l1 ++ m :: l2
               ∧ (∀ l, l ∈ l1 → is_device_id_line l = false)
               ∧ is_device_id_line m = true.
Proof.
  induction ls as [|l ls IH]; [left; by intros ? ?%not_elem_of_nil|].
  destruct (is_device_id_line l) eqn:E.
  - right. exists [], l, ls. split_and!; [done| |done].
    by intros ? ?%not_elem_of_nil.
  - destruct IH as [Hnone|(l1 & m & l2 & -> & H1 & Hm)].
    + left. intros l' [->|H]%elem_of_cons; [done|by apply Hnone].
    + right. exists (l :: l1), m, l2. split_and!; [done| |done].
      intros l' [->|H]%elem_of_cons; [done|by apply H1].
Qed.

Lemma rstrip_app_fixed a t :
  rstrip t = t → t ≠ EmptyString → rstrip (a +:+ t) = a +:+ t.
Proof.
  intros Ht Hne. induction a as [|c a IH]; [done|].
  change (String c a +:+ t) with (String c (a +:+ t)).
  simpl. rewrite IH.
  destruct (a +:+ t) as [|d u] eqn:E; [|done].
  destruct a; simpl in E; [done|discriminate].
Qed.

Lemma app_nonempty_r (a t : string) :
  t ≠ EmptyString → a +:+ t ≠ EmptyString.
Proof. intros Hne. destruct a; [done|discriminate]. Qed.

Lemma strip_device_id_line id : strip (device_id_line id) = device_id_line id.
Proof.
  unfold strip, device_id_line.
  change (lstrip ("device_id = " +:+ dquote +:+ id +:+ dquote))
    with ("device_id = " +:+ dquote +:+ id +:+ dquote).
  assert (Hq : rstrip (id +:+ dquote) = id +:+ dquote)
    by (by apply rstrip_app_fixed).
  assert (Hn : id +:+ dquote ≠ EmptyString) by (by apply app_nonempty_r).
  rewrite (rstrip_app_fixed "device_id = " (dquote +:+ id +:+ dquote));
    [done| |by apply app_nonempty_r].
  by apply rstrip_app_fixed.
Qed.

Lemma device_id_line_qualifies id : is_device_id_line (device_id_line id) = true.
Proof. unfold is_device_id_line. by rewrite strip_device_id_line. Qed.

Lemma no_newline_app a b :
  no_newline (a +:+ b) = no_newline a && no_newline b.
Proof.
  induction a as [|c a IH]; [done|].
  change (String c a +:+ b) with (String c (a +:+ b)).
  simpl. rewrite IH. by rewrite andb_assoc.
Qed.

Lemma device_id_line_no_newline id :
  no_newline id = true → no_newline (device_id_line id) = true.
Proof.
  intros H. unfold device_id_line. rewrite !no_newline_app, H. done.
Qed.

(** A text that mentions [device_id] and whose first qualifying line is
    already the line to be written is left as it is. *)
Lemma update_config_fixed id content l1 l2 :
  contains "device_id" content = true →
  split_lines content = l1 ++ device_id_line id :: l2 →
  (∀ l, l ∈ l1 → is_device_id_line l = false) →
  update_config_device_id id content = content.
Proof.
  intros Hc Hs Hl1. unfold update_config_device_id.
  rewrite Hc, Hs, replace_first_app by done. simpl.
  rewrite device_id_line_qualifies, <- Hs. apply join_split_lines.
Qed.

Lemma no_mention_no_line content l :
  contains "device_id" content = false →
  l ∈ split_lines content → is_device_id_line l = false.
Proof.
  intros Hc Hin. destruct (is_device_id_line l) eqn:E; [|done].
  apply device_id_line_contains in E.
  by rewrite (contains_line _ _ _ Hin E) in Hc.
Qed.

Lemma update_config_appends_aux id content
    (Hid : no_newline id = true)
    (Habsent : contains "device_id" content = false) :
  split_lines (update_config_device_id id content)
  = split_lines content ++ [device_id_line id; EmptyString]
  ∧ is_device_id_line (device_id_line id) = true.
Proof.
  split; [|apply device_id_line_qualifies].
  unfold update_config_device_id. rewrite Habsent.
  rewrite split_lines_app_nl. f_equal.
  change (device_id_line id +:+ nl)
    with (device_id_line id +:+ nl +:+ EmptyString).
  rewrite split_lines_app_nl.
  by rewrite split_lines_single by (by apply device_id_line_no_newline).
Qed.

(** X19. When the text does not mention [device_id], the update keeps every
    line, adds the line [device_id = "<id>"] as a line of its own and ends
    the text with a line break. *)
Theorem update_config_appends id content
    (Hid : no_newline id = true)
    (Habsent : contains "device_id" content = false) :
  split_lines (update_config_device_id id content)
  = split_lines content ++ [device_id_line id; EmptyString]
  ∧ is_device_id_line (device_id_line id) = true.
Proof. by apply update_config_appends_aux. Qed.

Lemma update_config_appends_witness :
  split_lines (update_config_device_id "a1b2c3" "webhook_url = 1")
  = ["webhook_url = 1"; device_id_line "a1b2c3"; EmptyString].
Proof.
  exact (proj1 (update_config_appends "a1b2c3" "webhook_url = 1"
                  eq_refl eq_refl)).
Defined.

(** X20. When the text mentions [device_id], the first line that starts with
    it (after leading white space) is replaced by [device_id = "<id>"],
    whatever that line was; every other line and the number of lines stay
    the same. *)
Theorem update_config_replaces_first id content k line
    (Hid : no_newline id = true)
    (Hk : split_lines content !! k = Some line)
    (Hline : is_device_id_line line = true)
    (Hfirst : ∀ j l, (j < k)%nat → split_lines content !! j = Some l →
                     is_device_id_line l = false) :
  split_lines (update_config_device_id id content)
  = <[k := device_id_line id]> (split_lines content).
Proof.
  assert (Hc : contains "device_id" content = true).
  { eapply contains_line; [by eapply list_elem_of_lookup_2|].
    by apply device_id_line_contains. }
  unfold update_config_device_id. rewrite Hc.
  assert (Hrep : replace_first (device_id_line id) (split_lines content)
                 = <[k := device_id_line id]> (split_lines content)).
  { revert k Hk Hfirst. generalize (split_lines content).
    intros ls. induction ls as [|l ls IH]; intros k Hk Hfirst; [done|].
    destruct k as [|k]; simpl in Hk.
    - injection Hk as ->. simpl. by rewrite Hline.
    - simpl. rewrite (Hfirst 0%nat l) by (done || lia).
      f_equal. apply IH; [done|].
      intros j l' Hj Hl'. apply (Hfirst (S j) l'); [lia|done]. }
  rewrite Hrep. apply split_join_lines.
  - intros Hnil. apply (f_equal length) in Hnil.
    rewrite length_insert in Hnil. simpl in Hnil.
    pose proof (split_lines_nonempty content).
    by destruct (split_lines content).
  - intros l Hl. apply list_elem_of_lookup in Hl as [j Hj].
    destruct (decide (j = k)) as [->|Hne].
    + rewrite list_lookup_insert_eq in Hj
        by (by eapply lookup_lt_Some).
      injection Hj as <-. by apply device_id_line_no_newline.
    + rewrite list_lookup_insert_ne in Hj by done.
      eapply split_lines_no_newline. by eapply list_elem_of_lookup_2.
Qed.

Lemma update_config_replaces_first_witness :
  split_lines
    (update_config_device_id "a1b2c3"
       ("webhook_url = 1" +:+ nl +:+ "  device_id_old = 2" +:+ nl
        +:+ "device_id = 3"))
  = ["webhook_url = 1"; device_id_line "a1b2c3"; "device_id = 3"].
Proof.
  apply (update_config_replaces_first "a1b2c3"
           ("webhook_url = 1" +:+ nl +:+ "  device_id_old = 2" +:+ nl
            +:+ "device_id = 3")
           1 "  device_id_old = 2");
    [reflexivity|reflexivity|reflexivity|].
  intros j l Hj Hl. destruct j as [|j]; [|lia].
  injection Hl as <-. reflexivity.
Defined.

Lemma update_config_not_stored_aux id content
    (Hmention : contains "device_id" content = true)
    (Hnone : ∀ l, l ∈ split_lines content → is_device_id_line l = false) :
  update_config_device_id id content = content.
Proof.
  unfold update_config_device_id. rewrite Hmention.
  rewrite replace_first_none by done. apply join_split_lines.
Qed.

(** X21. When the text mentions [device_id] but no line starts with it (the
    word occurs inside a comment, a value or a longer key), the update
    writes the text back unchanged: the id is not stored. *)
Theorem update_config_not_stored id content
    (Hmention : contains "device_id" content = true)
    (Hnone : ∀ l, l ∈ split_lines content → is_device_id_line l = false) :
  update_config_device_id id content = content.
Proof. by apply update_config_not_stored_aux. Qed.

Lemma update_config_not_stored_witness :
  update_config_device_id "a1b2c3"
    ("# device_id is generated" +:+ nl +:+ "webhook_url = 1")
  = "# device_id is generated" +:+ nl +:+ "webhook_url = 1".
Proof.
  apply update_config_not_stored; [reflexivity|].
  intros l Hl. cbn in Hl.
  apply elem_of_cons in Hl as [->|Hl]; [reflexivity|].
  apply list_elem_of_singleton in Hl as ->. reflexivity.
Defined.

(** X22. Updating the configuration twice with the same id gives the same
    text as updating it once. *)
Theorem update_config_idempotent id content
    (Hid : no_newline id = true) :
  update_config_device_id id (update_config_device_id id content)
  = update_config_device_id id content.
Proof.
  destruct (contains "device_id" content) eqn:Hc.
  - destruct (first_device_id_line (split_lines content))
      as [Hnone|(l1 & m & l2 & Hs & Hl1 & Hm)].
    + by rewrite !(update_config_not_stored_aux id content).
    + assert (Hup : update_config_device_id id content
                    = join_lines (l1 ++ device_id_line id :: l2)).
      { unfold update_config_device_id.
        rewrite Hc, Hs, replace_first_app by done. simpl. by rewrite Hm. }
      rewrite Hup.
      assert (Hfree : ∀ l, l ∈ l1 ++ device_id_line id :: l2 →
                           no_newline l = true).
      { intros l [Hl|[->|Hl]%elem_of_cons]%elem_of_app.
        - apply (split_lines_no_newline content). rewrite Hs.
          apply elem_of_app. by left.
        - by apply device_id_line_no_newline.
        - apply (split_lines_no_newline content). rewrite Hs.
          apply elem_of_app. right. apply elem_of_cons. by right. }
      apply (update_config_fixed id _ l1 l2); [| |done].
      * apply (contains_join_lines _ _ (device_id_line id)).
        -- apply elem_of_app. right. apply elem_of_cons. by left.
        -- apply device_id_line_contains, device_id_line_qualifies.
      * apply split_join_lines; [|done]. by destruct l1.
  - destruct (update_config_appends_aux id content Hid Hc) as [Hs _].
    apply (update_config_fixed id _ (split_lines content) [EmptyString]).
    + unfold update_config_device_id. rewrite Hc.
      do 2 apply contains_app_r. apply contains_app_l.
      apply device_id_line_contains, device_id_line_qualifies.
    + done.
    + intros l Hl. by eapply no_mention_no_line.
Qed.

Lemma update_config_idempotent_witness :
  update_config_device_id "a1b2c3"
    (update_config_device_id "a1b2c3" "webhook_url = 1")
  = update_config_device_id "a1b2c3" "webhook_url = 1".
Proof.
  apply update_config_idempotent. reflexivity.
Defined.

(** * Repeated failures *)

(** X8. After any number of failures recorded one after the other for an
    event, its attempt count has grown by that number, and the last
    failure determines the stored response and a [next_retry] computed
    from the total count. *)
Theorem repeated_failures_count (tries : list (Clock * option string)) db i r
    (Hl : card_reads db !! i = Some r) :
  ∃ r',
    card_reads
      (run ((λ x, RecordOutcome x.1 i "pending" x.2 None) <$> tries) db) !! i
    = Some r'
    ∧ sync_attempts r' = sync_attempts r + Z.of_nat (length tries)
    ∧ match last tries with
      | Some x =>
          next_retry r'
          = Some (py_now x.1
                  + backoff_minutes
                      (sync_attempts r + Z.of_nat (length tries)) * 60)
          ∧ webhook_response r' = x.2
          ∧ last_sync_attempt r' = Some (sql_now x.1)
      | None => r' = r
      end.
Proof.
  unfold run. revert db r Hl.
  induction tries as [|x tries IH]; intros db r Hl.
  - exists r. simpl. split_and!; [done|lia|done].
  - cbn [fmap list_fmap foldl step].
    pose proof (lookup_update_retry x.1 i "pending" x.2 None db r
                  ltac:(done) Hl) as H1.
    cbn [default] in H1.
    destruct (IH _ _ H1) as (r' & Hr' & Hcount & Hlast).
    exists r'. split; [done|].
    cbn [mark_retry sync_attempts] in Hcount.
    split; [rewrite Hcount; cbn [length]; lia|].
    destruct tries as [|y tries].
    + simpl in Hlast |- *. subst r'. simpl.
      change (Z.of_nat 1) with 1. by split_and!.
    + change (last (x :: y :: tries)) with (last (y :: tries)).
      destruct (last (y :: tries)) as [z|] eqn:E;
        [|by apply last_None in E].
      destruct Hlast as (Hn & Hw & Ha). split_and!; try done.
      assert (Heq : sync_attempts r + 1 + Z.of_nat (length (y :: tries))
                    = sync_attempts r + Z.of_nat (length (x :: y :: tries)))
        by (cbn [length]; lia).
      rewrite Hn. cbn [mark_retry sync_attempts]. by rewrite Heq.
Qed.

Lemma repeated_failures_count_witness :
  let db := (insert_card_read (clock_at 0 1000) "dev-1" "CARD-7" "hello"
                              empty_db).1 in
  ∃ r',
    card_reads
      (run [RecordOutcome (clock_at 0 1010) 1 "pending" (Some "a") None;
            RecordOutcome (clock_at 0 1100) 1 "pending" (Some "b") None;
            RecordOutcome (clock_at 0 1300) 1 "pending" (Some "c") None]
           db) !! 1 = Some r'
    ∧ sync_attempts r' = 3
    ∧ next_retry r' = Some (1300 + 4 * 60).
Proof.
  intros db.
  destruct (repeated_failures_count
              [(clock_at 0 1010, Some "a"); (clock_at 0 1100, Some "b");
               (clock_at 0 1300, Some "c")] db 1 _ eq_refl)
    as (r' & H1 & H2 & H3 & _).
  exists r'. split_and!; [exact H1|exact H2|exact H3].
Defined.
